(** * AIMovementAfterDestinationRule: the Nullkiller movement rule

    A shallow embedding of
    [AI/Nullkiller/Pathfinding/Rules/AIMovementAfterDestinationRule.cpp]:
    the rule the pathfinder runs on every edge (source node, destination
    node), its four bypass strategies and the properties of the verdict
    it leaves in [destination.blocked] and [destination.node->locked].

    The rule mutates the node storage and the destination record it is
    handed by reference; both are threaded through a small state monad.
    The collaborators whose code lives elsewhere (the game callback, the
    node storage, the base pathfinder rule) are records of functions. *)

From Stdlib Require Import ZArith List Bool Lia.
Import ListNotations.
Open Scope Z_scope.

(** ** Data model *)

(** Raw pointers of the C++ code are identifiers; a pointer that may be
    null is an [option]. *)
Definition NodePtr := nat.
Definition ObjPtr := nat.
Definition HeroPtr := nat.
Definition ActorPtr := nat.
Definition QuestPtr := nat.
Definition PlayerColor := nat.

Record int3 := mk_int3 { x : Z; y : Z; z : Z }.

Inductive EPathfindingLayer := LAND | SAIL | WATER | AIR.

Inductive PlayerRelations := ENEMIES | ALLIES | SAME_PLAYER.

(** The [switch] of [process] has a case for four of the reasons and
    tests [NONE] before it; the two source-side reasons of the engine's
    enumeration fall through the switch. *)
Inductive BlockingReason :=
  | NONE
  | SOURCE_GUARDED
  | DESTINATION_GUARDED
  | SOURCE_BLOCKED
  | DESTINATION_BLOCKED
  | DESTINATION_BLOCKVIS
  | DESTINATION_VISIT.

(** [CQuest::Emission]. *)
Inductive Emission :=
  | MISSION_NONE
  | MISSION_LEVEL
  | MISSION_PRIMARY_STAT
  | MISSION_KILL_HERO
  | MISSION_KILL_CREATURE
  | MISSION_ART
  | MISSION_ARMY
  | MISSION_RESOURCES
  | MISSION_HERO
  | MISSION_PLAYER
  | MISSION_KEYMASTER.

(** Object identifiers of [Obj] that the rule names. *)
Module Obj.
Definition BORDERGUARD : Z := 9.
Definition BORDER_GATE : Z := 212.
Definition QUEST_GUARD : Z := 215.
End Obj.

Record QuestInfo := mk_QuestInfo {
  quest : QuestPtr;
  obj : ObjPtr;
  tile : int3
}.

(** [std::shared_ptr<SpecialAction>]: the two actions this rule builds. *)
Inductive SpecialAction :=
  | QuestAction (questInfo : QuestInfo)
  | BattleAction (target : int3).

Record ChainActor := mk_ChainActor {
  hero : option HeroPtr;
  armyValue : Z;
  allowBattle : bool;
  battleActor : ActorPtr
}.

Record AIPathNode := mk_AIPathNode {
  layer : EPathfindingLayer;
  locked : bool;
  actor : ActorPtr;
  armyLoss : Z;
  danger : Z;
  specialAction : option SpecialAction;
  theNodeBefore : option NodePtr
}.

Record PathNodeInfo := mk_PathNodeInfo {
  node : NodePtr;
  nodeObject : option ObjPtr;
  nodeHero : option HeroPtr;
  coord : int3;
  heroRelations : PlayerRelations
}.

(** [CDestinationNodeInfo] derives from [PathNodeInfo]. *)
Record CDestinationNodeInfo := mk_CDestinationNodeInfo {
  info : PathNodeInfo;
  blocked : bool
}.

(** The nodes owned by the storage, by pointer. *)
Definition NodeStore := NodePtr -> AIPathNode.

Definition store_set (st : NodeStore) (p : NodePtr) (n : AIPathNode) : NodeStore :=
  fun q => if Nat.eqb q p then n else st q.

(** ** Unsigned 64-bit arithmetic *)

Definition u64 (v : Z) : Z := v mod 2 ^ 64.

(** ** Field updates *)

Definition set_locked (b : bool) (n : AIPathNode) : AIPathNode :=
  mk_AIPathNode (layer n) b (actor n) (armyLoss n) (danger n)
                (specialAction n) (theNodeBefore n).

Definition set_armyLoss (v : Z) (n : AIPathNode) : AIPathNode :=
  mk_AIPathNode (layer n) (locked n) (actor n) v (danger n)
                (specialAction n) (theNodeBefore n).

Definition set_danger (v : Z) (n : AIPathNode) : AIPathNode :=
  mk_AIPathNode (layer n) (locked n) (actor n) (armyLoss n) v
                (specialAction n) (theNodeBefore n).

Definition set_specialAction (a : option SpecialAction) (n : AIPathNode) : AIPathNode :=
  mk_AIPathNode (layer n) (locked n) (actor n) (armyLoss n) (danger n)
                a (theNodeBefore n).

Definition set_node (p : NodePtr) (d : CDestinationNodeInfo) : CDestinationNodeInfo :=
  mk_CDestinationNodeInfo
    (mk_PathNodeInfo p (nodeObject (info d)) (nodeHero (info d))
                     (coord (info d)) (heroRelations (info d)))
    (blocked d).

Definition set_blocked (b : bool) (d : CDestinationNodeInfo) : CDestinationNodeInfo :=
  mk_CDestinationNodeInfo (info d) b.

(** [vstd::amax(a, b)]: [a] becomes [b] when [a < b]. *)
Definition amax (a b : Z) : Z := if a <? b then b else a.

(** ** Small decidable equalities *)

Definition is_ENEMIES (r : PlayerRelations) : bool :=
  match r with ENEMIES => true | _ => false end.

Definition is_MISSION_NONE (m : Emission) : bool :=
  match m with MISSION_NONE => true | _ => false end.

Definition is_NONE (b : BlockingReason) : bool :=
  match b with NONE => true | _ => false end.

(** Comparison of two possibly-null hero pointers. *)
Definition hero_eqb (a b : option HeroPtr) : bool :=
  match a, b with
  | Some h1, Some h2 => Nat.eqb h1 h2
  | None, None => true
  | _, _ => false
  end.

Definition not_null {A} (p : option A) : bool :=
  match p with Some _ => true | None => false end.

(** [vstd::contains] and [vstd::erase_if] on a vector of pointers. *)
Definition contains (v : list ObjPtr) (p : ObjPtr) : bool :=
  existsb (Nat.eqb p) v.

Definition erase_if (pred : ObjPtr -> bool) (v : list ObjPtr) : list ObjPtr :=
  filter (fun p => negb (pred p)) v.

Definition empty {A} (v : list A) : bool :=
  match v with [] => true | _ => false end.

(** ** Collaborators *)

(** [CPlayerSpecificInfoCallback] and the map objects it gives access to:
    object identifier, the quest interface of quest objects, heroes. *)
Record Callback := mk_Callback {
  getGuardingCreatures : int3 -> list ObjPtr;
  ID : ObjPtr -> Z;
  questOf : ObjPtr -> QuestPtr;
  missionType : QuestPtr -> Emission;
  wasVisited : ObjPtr -> PlayerColor -> bool;
  checkQuest : ObjPtr -> HeroPtr -> bool;
  tempOwner : HeroPtr -> PlayerColor
}.

(** [AINodeStorage]: queries, the risk oracle, node allocation and
    [commit]; [actors] resolves the actor pointers kept in the nodes. *)
Record AINodeStorage := mk_AINodeStorage {
  actors : ActorPtr -> ChainActor;
  isMovementIneficient : NodeStore -> PathNodeInfo -> CDestinationNodeInfo -> bool;
  isDistanceLimitReached : NodeStore -> PathNodeInfo -> CDestinationNodeInfo -> bool;
  getHero : NodeStore -> NodePtr -> option HeroPtr;
  getOrCreateNode :
    NodeStore -> int3 -> EPathfindingLayer -> ActorPtr -> NodeStore * option NodePtr;
  evaluateDanger : int3 -> option HeroPtr -> bool -> Z;
  evaluateArmyLoss : option HeroPtr -> Z -> Z -> Z;
  commit : NodeStore -> CDestinationNodeInfo -> PathNodeInfo -> NodeStore
}.

(** What the rule inherits or borrows from the pathfinder: the blocking
    classifier of the base rule, [isObjectRemovable], the hero of the
    pathfinder helper and [AIPreviousNodeRule::process]. *)
Record Pathfinder := mk_Pathfinder {
  getBlockingReason : NodeStore -> PathNodeInfo -> CDestinationNodeInfo -> BlockingReason;
  isObjectRemovable : ObjPtr -> bool;
  helperHero : HeroPtr;
  previousNodeRule : NodeStore -> PathNodeInfo -> CDestinationNodeInfo -> NodeStore
}.

(** Modelled from the spec: [AIPreviousNodeRule::process] is not among the
    sources; the spec describes it as the rule that records the
    predecessor link, so it leaves the loss and the danger of every node
    as they are. *)
Definition records_links_only (pf : Pathfinder) : Prop :=
  forall st s d p,
    armyLoss (previousNodeRule pf st s d p) = armyLoss (st p) /\
    danger (previousNodeRule pf st s d p) = danger (st p).

(** ** State *)

(** Calls made while an edge is evaluated, oldest first: a ghost record
    of which collaborator or strategy was entered. *)
Inductive Event :=
  | CallIsMovementIneficient
  | CallGetBlockingReason
  | CallGetGuardingCreatures (c : int3)
  | CallBypassDestinationGuards
  | CallBypassRemovableObject
  | CallBypassBlocker
  | CallBypassBattle
  | CallGetOrCreateNode
  | CallEvaluateDanger
  | CallEvaluateArmyLoss
  | CallCommit
  | CallPreviousNodeRule
  | CallIsDistanceLimitReached.

Record World := mk_World {
  nodes : NodeStore;
  destination : CDestinationNodeInfo;
  trace : list Event
}.

Definition M (A : Type) : Type := World -> A * World.

Definition ret {A} (a : A) : M A := fun w => (a, w).

Definition bind {A B} (m : M A) (k : A -> M B) : M B :=
  fun w => let (a, w') := m w in k a w'.

Notation "x <- m ;; k" := (bind m (fun x => k))
  (at level 61, m at next level, right associativity).
Notation "m ;;; k" := (bind m (fun _ => k))
  (at level 61, right associativity).

Definition getNodes : M NodeStore := fun w => (nodes w, w).

Definition getDestination : M CDestinationNodeInfo := fun w => (destination w, w).

(** [nodeStorage->getAINode(p)]: the extended record behind a node pointer. *)
Definition getAINode (p : NodePtr) : M AIPathNode := fun w => (nodes w p, w).

Definition putNodes (st : NodeStore) : M unit :=
  fun w => (tt, mk_World st (destination w) (trace w)).

Definition modifyDestination (f : CDestinationNodeInfo -> CDestinationNodeInfo) : M unit :=
  fun w => (tt, mk_World (nodes w) (f (destination w)) (trace w)).

Definition emit (e : Event) : M unit :=
  fun w => (tt, mk_World (nodes w) (destination w) (trace w ++ [e])).

(** Modelled from the spec: [AINodeStorage::updateAINode] is not among the
    sources; the spec gives it as the scoped in-place update of one node. *)
Definition updateAINode (p : NodePtr) (f : AIPathNode -> AIPathNode) : M unit :=
  fun w => (tt, mk_World (store_set (nodes w) p (f (nodes w p))) (destination w) (trace w)).

(** ** The rule *)

Section Rule.

Variable cb : Callback.
Variable nodeStorage : AINodeStorage.
Variable pathfinder : Pathfinder.

(** [srcNode->actor->armyValue - srcNode->armyLoss], in [uint64_t]. *)
Definition actualArmyValue (st : NodeStore) (source : PathNodeInfo) : Z :=
  let srcNode := st (node source) in
  u64 (armyValue (actors nodeStorage (actor srcNode)) - armyLoss srcNode).

Definition bypassBattle (source : PathNodeInfo) : M bool :=
  emit CallBypassBattle ;;;
  dst <- getDestination ;;
  destNode <- getAINode (node (info dst)) ;;
  st0 <- getNodes ;;
  emit CallGetOrCreateNode ;;;
  let (st1, battleNodeOptional) :=
    getOrCreateNode nodeStorage st0 (coord (info dst)) (layer destNode)
                    (battleActor (actors nodeStorage (actor destNode))) in
  putNodes st1 ;;;
  match battleNodeOptional with
  | None => ret false
  | Some battleNode =>
    bn <- getAINode battleNode ;;
    if locked bn then ret false
    else
      let hero := getHero nodeStorage st1 (node source) in
      emit CallEvaluateDanger ;;;
      let danger' := u64 (evaluateDanger nodeStorage (coord (info dst)) hero true) in
      let actualArmyValue' := actualArmyValue st1 source in
      emit CallEvaluateArmyLoss ;;;
      let loss := u64 (evaluateArmyLoss nodeStorage hero actualArmyValue' danger') in
      if loss <? actualArmyValue' then
        modifyDestination (set_node battleNode) ;;;
        dst' <- getDestination ;;
        emit CallCommit ;;;
        putNodes (commit nodeStorage st1 dst' source) ;;;
        updateAINode battleNode (fun n => set_armyLoss (u64 (armyLoss n + loss)) n) ;;;
        updateAINode battleNode (fun n => set_danger (amax (danger n) danger') n) ;;;
        st2 <- getNodes ;;
        emit CallPreviousNodeRule ;;;
        putNodes (previousNodeRule pathfinder st2 source dst') ;;;
        updateAINode battleNode
          (set_specialAction (Some (BattleAction (coord (info dst'))))) ;;;
        ret true
      else ret false
  end.

(** [destGuardians] is passed by value: the caller's vector is not
    changed by the erasure. *)
Definition bypassDestinationGuards (destGuardians : list ObjPtr)
    (source : PathNodeInfo) : M bool :=
  emit CallBypassDestinationGuards ;;;
  emit (CallGetGuardingCreatures (coord source)) ;;;
  let srcGuardians := getGuardingCreatures cb (coord source) in
  if empty destGuardians then ret false
  else
    srcNode <- getAINode (node source) ;;
    let destGuardians' := erase_if (contains srcGuardians) destGuardians in
    let guardsAlreadyBypassed := empty destGuardians' && negb (empty srcGuardians) in
    if guardsAlreadyBypassed && allowBattle (actors nodeStorage (actor srcNode))
    then ret true
    else bypassBattle source.

Definition bypassBlocker (source : PathNodeInfo) : M bool :=
  emit CallBypassBlocker ;;;
  dst <- getDestination ;;
  let enemyHero := not_null (nodeHero (info dst)) && is_ENEMIES (heroRelations (info dst)) in
  if enemyHero then bypassBattle source else ret false.

Definition is_quest_gate (id : Z) : bool :=
  (id =? Obj.QUEST_GUARD) || (id =? Obj.BORDERGUARD) || (id =? Obj.BORDER_GATE).

(** The function dereferences [destination.nodeObject], which its only
    caller has tested against null: [object] is that pointer. *)
Definition bypassRemovableObject (object : ObjPtr) (source : PathNodeInfo) : M bool :=
  emit CallBypassRemovableObject ;;;
  dst <- getDestination ;;
  if is_quest_gate (ID cb object) then
    let questObj := object in
    let nodeHero' := helperHero pathfinder in
    if (ID cb object =? Obj.QUEST_GUARD)
       && is_MISSION_NONE (missionType cb (questOf cb questObj))
    then ret false
    else
      (if negb (wasVisited cb object (tempOwner cb nodeHero'))
          || negb (checkQuest cb questObj nodeHero')
       then
         updateAINode (node (info dst))
           (set_specialAction
              (Some (QuestAction
                       (mk_QuestInfo (questOf cb questObj) object (coord (info dst))))))
       else ret tt) ;;;
      ret true
  else
    let enemyHero := not_null (nodeHero (info dst)) && is_ENEMIES (heroRelations (info dst)) in
    if negb enemyHero && negb (isObjectRemovable pathfinder object) then
      st <- getNodes ;;
      if hero_eqb (getHero nodeStorage st (node (info dst))) (nodeHero (info dst))
      then ret true
      else ret false
    else ret true.

(** The [switch] of [process]: [allowBypass] starts [false] and is set by
    the case of the blocking reason. *)
Definition dispatch (blocker : BlockingReason) (destGuardians : list ObjPtr)
    (source : PathNodeInfo) : M bool :=
  match blocker with
  | DESTINATION_GUARDED => bypassDestinationGuards destGuardians source
  | DESTINATION_BLOCKVIS =>
    dst <- getDestination ;;
    allowBypass <- match nodeObject (info dst) with
                   | Some object => bypassRemovableObject object source
                   | None => ret false
                   end ;;
    if allowBypass && negb (empty destGuardians)
    then bypassDestinationGuards destGuardians source
    else ret allowBypass
  | DESTINATION_VISIT => ret true
  | DESTINATION_BLOCKED => bypassBlocker source
  | _ => ret false
  end.

(** The last two statements of [process]; the distance limit is asked
    only when the bypass is allowed ([||] short-circuits). *)
Definition verdict (allowBypass : bool) (source : PathNodeInfo) : M unit :=
  st <- getNodes ;;
  dst <- getDestination ;;
  blocked' <- (if negb allowBypass then ret true
               else emit CallIsDistanceLimitReached ;;;
                    ret (isDistanceLimitReached nodeStorage st source dst)) ;;
  modifyDestination (set_blocked blocked') ;;;
  updateAINode (node (info dst)) (set_locked (negb allowBypass)).

Definition process (source : PathNodeInfo) : M unit :=
  st <- getNodes ;;
  dst <- getDestination ;;
  emit CallIsMovementIneficient ;;;
  if isMovementIneficient nodeStorage st source dst then
    updateAINode (node (info dst)) (set_locked true) ;;;
    modifyDestination (set_blocked true)
  else
    emit CallGetBlockingReason ;;;
    let blocker := getBlockingReason pathfinder st source dst in
    if is_NONE blocker then ret tt
    else
      emit (CallGetGuardingCreatures (coord (info dst))) ;;;
      let destGuardians := getGuardingCreatures cb (coord (info dst)) in
      allowBypass <- dispatch blocker destGuardians source ;;
      verdict allowBypass source.

(** The world in which [process] enters its [switch]: nothing but the
    record of the three queries made so far has changed. *)
Definition classified (w : World) : World :=
  mk_World (nodes w) (destination w)
    (trace w ++ [CallIsMovementIneficient; CallGetBlockingReason;
                 CallGetGuardingCreatures (coord (info (destination w)))]).

(** The battle-variant node [bypassBattle] asks the storage for, with the
    storage as that request leaves it. *)
Definition battleNodeOf (w : World) : NodeStore * option NodePtr :=
  let dst := destination w in
  let destNode := nodes w (node (info dst)) in
  getOrCreateNode nodeStorage (nodes w) (coord (info dst)) (layer destNode)
                  (battleActor (actors nodeStorage (actor destNode))).

(** The two figures of the risk oracle for an edge, as [bypassBattle]
    stores them in its [uint64_t] locals. *)
Definition estimatedDanger (st : NodeStore) (source : PathNodeInfo) (c : int3) : Z :=
  u64 (evaluateDanger nodeStorage c (getHero nodeStorage st (node source)) true).

Definition estimatedLoss (st : NodeStore) (source : PathNodeInfo) (c : int3) : Z :=
  u64 (evaluateArmyLoss nodeStorage (getHero nodeStorage st (node source))
                        (actualArmyValue st source) (estimatedDanger st source c)).

End Rule.

(** ** A small map for concrete runs

    Node 0 is the source's node, node 1 the destination's and node 2 the
    battle-variant node at the destination; every actor is the hero 1
    with an army worth 1000 that may fight, and its battle actor is the
    actor 1. *)

Definition origin : int3 := mk_int3 0 0 0.
Definition gate : int3 := mk_int3 1 0 0.

Definition ex_cb (objectId : Z) (mission : Emission)
    (srcGuardians destGuardians : list ObjPtr) : Callback :=
  mk_Callback (fun c => if x c =? 0 then srcGuardians else destGuardians)
              (fun _ => objectId) (fun o => o) (fun _ => mission)
              (fun _ _ => false) (fun _ _ => false) (fun _ => 0%nat).

Definition ex_actor (canFight : bool) (a : ActorPtr) : ChainActor :=
  mk_ChainActor (Some 1%nat) 1000 canFight 1%nat.

Definition ex_nodes (destLocked battleLocked : bool) (srcLoss : Z) : NodeStore :=
  fun p =>
    match p with
    | 0%nat => mk_AIPathNode LAND false 0%nat srcLoss 0 None None
    | 1%nat => mk_AIPathNode LAND destLocked 0%nat 0 0 None None
    | _ => mk_AIPathNode LAND battleLocked 1%nat 0 0 None None
    end.

(** The storage of the example: [commit] hands the loss and the danger of
    the source's node down to the destination's node. *)
Definition ex_commit (st : NodeStore) (d : CDestinationNodeInfo) (s : PathNodeInfo)
    : NodeStore :=
  store_set st (node (info d))
    (set_danger (danger (st (node s)))
       (set_armyLoss (armyLoss (st (node s))) (st (node (info d))))).

Definition ex_storage (canFight inefficient limit : bool) (battleNode : option NodePtr)
    (dangerV lossV : Z) : AINodeStorage :=
  mk_AINodeStorage (ex_actor canFight)
    (fun _ _ _ => inefficient) (fun _ _ _ => limit)
    (fun st p => hero (ex_actor canFight (actor (st p))))
    (fun st _ _ _ => (st, battleNode))
    (fun _ _ _ => dangerV) (fun _ _ _ => lossV)
    ex_commit.

Definition ex_link (st : NodeStore) (s : PathNodeInfo) (d : CDestinationNodeInfo)
    : NodeStore :=
  let n := st (node (info d)) in
  store_set st (node (info d))
    (mk_AIPathNode (layer n) (locked n) (actor n) (armyLoss n) (danger n)
                   (specialAction n) (Some (node s))).

Definition ex_pathfinder (blocker : BlockingReason) (removable : bool) : Pathfinder :=
  mk_Pathfinder (fun _ _ _ => blocker) (fun _ => removable) 1%nat ex_link.

Definition ex_source : PathNodeInfo := mk_PathNodeInfo 0%nat None None origin ALLIES.

Definition ex_destination (object : option ObjPtr) (occupant : option HeroPtr)
    (relations : PlayerRelations) : CDestinationNodeInfo :=
  mk_CDestinationNodeInfo (mk_PathNodeInfo 1%nat object occupant gate relations) false.

Definition ex_world (st : NodeStore) (d : CDestinationNodeInfo) : World :=
  mk_World st d [].

(** What a bypass strategy may do to the destination record: leave it as
    it is, or, when it allows the bypass, redirect it to a node that
    carries the simulated battle at the destination's coordinate. *)
Definition kept_or_redirected (w0 w1 : World) (allowBypass : bool) : Prop :=
  destination w1 = destination w0 \/
  (allowBypass = true /\
   exists battleNode,
     destination w1 = set_node battleNode (destination w0) /\
     specialAction (nodes w1 battleNode)
       = Some (BattleAction (coord (info (destination w0))))).

(** Modelled from the spec: the bodies of [getOrCreateNode], [commit] and
    [AIPreviousNodeRule::process] are not among the sources. The spec
    (section 3, invariant 1) lets no rule clear a lock within a search
    pass and has the storage own the nodes for the whole pass, so these
    three calls leave a locked node locked. *)
Definition keep_locks (ns : AINodeStorage) (pf : Pathfinder) : Prop :=
  (forall st c l a p,
      locked (st p) = true -> locked (fst (getOrCreateNode ns st c l a) p) = true) /\
  (forall st d s p, locked (st p) = true -> locked (commit ns st d s p) = true) /\
  (forall st s d p, locked (st p) = true -> locked (previousNodeRule pf st s d p) = true).

(** What a strategy may do to the locks: it clears none, and if it
    redirects the destination, the node it redirects to was not locked. *)
Definition locks_respected (w0 w1 : World) : Prop :=
  (forall p, locked (nodes w0 p) = true -> locked (nodes w1 p) = true) /\
  (destination w1 = destination w0 \/
   locked (nodes w0 (node (info (destination w1)))) = false).

Section Search.

Variable cb : Callback.
Variable nodeStorage : AINodeStorage.
Variable pathfinder : Pathfinder.

(** Modelled from the spec: the search that calls the rule is not among
    the sources. One search pass, as far as the rule is concerned, is a
    sequence of edge evaluations, each with a source and a destination
    record of its own; by section 3 of the spec a node whose lock is set
    is never evaluated again as a destination, so every edge of the pass
    leads to a node that is not locked when the rule is called. *)
Inductive search_pass : World -> World -> Prop :=
  | pass_done (w : World) : search_pass w w
  | pass_edge (w w' : World) (source : PathNodeInfo) (dst : CDestinationNodeInfo) :
      locked (nodes w (node (info dst))) = false ->
      search_pass
        (snd (process cb nodeStorage pathfinder source
                (mk_World (nodes w) dst (trace w)))) w' ->
      search_pass w w'.


End Search.

(** * TurnTimerHandler: the turn and battle timers of the server

    A shallow embedding of [server/TurnTimerHandler.cpp]. The handler keeps
    one [TurnTimerInfo] per player in a [std::map] and reacts to the
    events of a turn and of a battle. What it sends to the game handler
    is collected in a list; the game state it reads is not changed by the
    packs it sends. *)

Module TurnTimer.

Record TurnTimerInfo := mk_TurnTimerInfo {
  turnTimer : Z;
  baseTimer : Z;
  battleTimer : Z;
  creatureTimer : Z
}.

Inductive EPlayerStatus := WRONG | INGAME | LOSER | WINNER.

Inductive BattleSide := ATTACKER | DEFENDER.

(** The handler builds one kind of battle action, [DEFEND]. *)
Inductive EActionType := NO_ACTION | WALK | WAIT | DEFEND.

Record BattleAction := mk_BattleAction {
  actionType : EActionType;
  side : BattleSide;
  stackNumber : Z
}.

Record PlayerState := mk_PlayerState {
  color : PlayerColor;
  human : bool;
  status : EPlayerStatus
}.

Record CStack := mk_CStack {
  getOwner : PlayerColor;
  unitSide : BattleSide;
  unitId : Z
}.

(** [activeStack] is [battleGetStackByID(getActiveStackID())], a pointer
    that may be null. *)
Record BattleInfo := mk_BattleInfo {
  activeStack : option CStack;
  getSidePlayer : BattleSide -> PlayerColor
}.

Record CGameState := mk_CGameState {
  players : PlayerColor -> option PlayerState;
  curB : option BattleInfo
}.

Record StartInfo := mk_StartInfo {
  turnTimerInfo : TurnTimerInfo
}.

(** [topQuery] tells whether the player has a pending query (the pointer
    the code tests is not null). *)
Record CGameHandler := mk_CGameHandler {
  getStartInfo : option StartInfo;
  gameState : option CGameState;
  topQuery : PlayerColor -> bool
}.

(** What the headers declare and the sources do not show: the three
    propagation constants, the two predicates of [TurnTimerInfo], the
    validity of a player colour and the default-constructed timer that
    [operator[]] inserts for a player without an entry. *)
Record Declarations := mk_Declarations {
  turnTimePropagateFrequency : Z;
  turnTimePropagateFrequencyCrit : Z;
  turnTimePropagateThreshold : Z;
  isEnabled : TurnTimerInfo -> bool;
  isBattleEnabled : TurnTimerInfo -> bool;
  isValidPlayer : PlayerColor -> bool;
  freshTimer : TurnTimerInfo
}.

Record TurnTimeUpdate := mk_TurnTimeUpdate {
  player : PlayerColor;
  timer : TurnTimerInfo
}.

(** The calls into the game handler, in the order they are made. *)
Inductive Effect :=
  | SendAndApply (ttu : TurnTimeUpdate)
  | OnPlayerEndsTurn (c : PlayerColor)
  | MakePlayerBattleAction (c : PlayerColor) (a : BattleAction).

Record Handler := mk_Handler {
  timers : PlayerColor -> option TurnTimerInfo;
  effects : list Effect
}.

(** A call returns, throws [std::out_of_range] ([players.at]), runs into
    undefined behaviour (signed overflow, remainder by zero), or the
    model runs out of fuel. *)
Inductive Outcome (A : Type) :=
  | Done (a : A)
  | OutOfRange
  | Undefined
  | OutOfFuel.

Arguments Done {A} a.
Arguments OutOfRange {A}.
Arguments Undefined {A}.
Arguments OutOfFuel {A}.

(** ** [int] arithmetic *)

Definition INT_MIN : Z := - 2 ^ 31.
Definition INT_MAX : Z := 2 ^ 31 - 1.

Definition in_int (v : Z) : bool := (INT_MIN <=? v) && (v <=? INT_MAX).

Definition int_add (a b : Z) : option Z :=
  if in_int (a + b) then Some (a + b) else None.

Definition int_sub (a b : Z) : option Z :=
  if in_int (a - b) then Some (a - b) else None.

(** [a % b]: the remainder of the division that truncates. *)
Definition int_rem (a b : Z) : option Z :=
  if b =? 0 then None
  else if (a =? INT_MIN) && (b =? -1) then None
  else Some (Z.rem a b).

(** ** Field updates *)

Definition with_turnTimer (v : Z) (t : TurnTimerInfo) : TurnTimerInfo :=
  mk_TurnTimerInfo v (baseTimer t) (battleTimer t) (creatureTimer t).

Definition with_baseTimer (v : Z) (t : TurnTimerInfo) : TurnTimerInfo :=
  mk_TurnTimerInfo (turnTimer t) v (battleTimer t) (creatureTimer t).

Definition with_battleTimer (v : Z) (t : TurnTimerInfo) : TurnTimerInfo :=
  mk_TurnTimerInfo (turnTimer t) (baseTimer t) v (creatureTimer t).

Definition with_creatureTimer (v : Z) (t : TurnTimerInfo) : TurnTimerInfo :=
  mk_TurnTimerInfo (turnTimer t) (baseTimer t) (battleTimer t) v.

Definition is_INGAME (s : EPlayerStatus) : bool :=
  match s with INGAME => true | _ => false end.

(** ** The handler *)

Section Handler.

Variable decl : Declarations.
Variable gameHandler : CGameHandler.

(** [timers[p]] read: the entry, or the default the map inserts. *)
Definition at_timer (h : Handler) (p : PlayerColor) : TurnTimerInfo :=
  match timers h p with
  | Some t => t
  | None => freshTimer decl
  end.

(** [timers[p] = t]. *)
Definition set_timer (h : Handler) (p : PlayerColor) (t : TurnTimerInfo) : Handler :=
  mk_Handler (fun q => if Nat.eqb q p then Some t else timers h q) (effects h).

(** [timers[p]] evaluated: the entry exists from now on. *)
Definition touch (h : Handler) (p : PlayerColor) : Handler :=
  set_timer h p (at_timer h p).

Definition perform (e : Effect) (h : Handler) : Handler :=
  mk_Handler (timers h) (effects h ++ [e]).

Definition sendAndApply (p : PlayerColor) (h : Handler) : Handler :=
  perform (SendAndApply (mk_TurnTimeUpdate p (at_timer h p))) h.

Definition onGameplayStart (player : PlayerColor) (h : Handler) : Handler :=
  match getStartInfo gameHandler with
  | Some si =>
    if isEnabled decl (turnTimerInfo si) then
      let h1 := set_timer h player (turnTimerInfo si) in
      set_timer h1 player (with_turnTimer 0 (at_timer h1 player))
    else h
  | None => h
  end.

Definition onPlayerGetTurn (player : PlayerColor) (h : Handler) : Outcome Handler :=
  match getStartInfo gameHandler with
  | Some si =>
    if isEnabled decl (turnTimerInfo si) then
      let t := at_timer h player in
      match int_add (baseTimer t) (turnTimer t) with
      | None => Undefined
      | Some base' =>
        let h1 := set_timer h player (with_baseTimer base' t) in
        let h2 := set_timer h1 player
                    (with_turnTimer (turnTimer (turnTimerInfo si)) (at_timer h1 player)) in
        Done (sendAndApply player h2)
      end
    else Done h
  | None => Done h
  end.

(** Lines 71-81 of [onPlayerMakingTurn]: the turn timer of [player] is
    charged and, every so often, propagated. The message names
    [state.color] and carries [timers[player]]. *)
Definition chargeTurnTimer (state : PlayerState) (player : PlayerColor) (waitTime : Z)
    (h : Handler) : Outcome Handler :=
  let t := at_timer h player in
  match int_sub (turnTimer t) waitTime with
  | None => Undefined
  | Some turn' =>
    let t' := with_turnTimer turn' t in
    let h1 := set_timer h player t' in
    let frequency :=
      if turn' >? turnTimePropagateThreshold decl
      then turnTimePropagateFrequency decl
      else turnTimePropagateFrequencyCrit decl in
    if is_INGAME (status state) then
      match int_rem turn' frequency with
      | None => Undefined
      | Some r =>
        if r =? 0
        then Done (perform (SendAndApply (mk_TurnTimeUpdate (color state) t')) h1)
        else Done h1
      end
    else Done h1
  end.

(** Lines 85-86: the base timer becomes the turn timer. *)
Definition rollOverBaseTimer (player : PlayerColor) (h : Handler) : Handler :=
  let h1 := set_timer h player
              (with_turnTimer (baseTimer (at_timer h player)) (at_timer h player)) in
  set_timer h1 player (with_baseTimer 0 (at_timer h1 player)).

Fixpoint onPlayerMakingTurn (fuel : nat) (player : PlayerColor) (waitTime : Z)
    (h : Handler) : Outcome Handler :=
  match fuel with
  | O => OutOfFuel
  | S fuel' =>
    match gameState gameHandler, getStartInfo gameHandler with
    | Some gs, Some si =>
      match players gs player with
      | None => OutOfRange
      | Some state =>
        if human state && isEnabled decl (turnTimerInfo si) && negb (not_null (curB gs))
        then
          let t := at_timer h player in
          let h0 := touch h player in
          if turnTimer t >? 0 then chargeTurnTimer state player waitTime h0
          else if baseTimer t >? 0 then
            onPlayerMakingTurn fuel' player 0 (rollOverBaseTimer player h0)
          else if negb (topQuery gameHandler (color state))
          then Done (perform (OnPlayerEndsTurn (color state)) h0)
          else Done h0
        else Done h
      end
    | _, _ => Done h
    end
  end.

(** The timers of a sane build: both propagation periods are positive. *)
Definition positive_periods : Prop :=
  0 < turnTimePropagateFrequency decl /\ 0 < turnTimePropagateFrequencyCrit decl.

(** The body of the loop of [onBattleStart] for one side. *)
Definition startBattleTimer (si : StartInfo) (h : Handler) (i : PlayerColor) : Handler :=
  if isValidPlayer decl i then
    let h1 := set_timer h i
                (with_battleTimer (battleTimer (turnTimerInfo si)) (at_timer h i)) in
    let h2 := set_timer h1 i
                (with_creatureTimer (creatureTimer (turnTimerInfo si)) (at_timer h1 i)) in
    sendAndApply i h2
  else h.

Definition onBattleStart (h : Handler) : Handler :=
  match gameState gameHandler, getStartInfo gameHandler with
  | Some gs, Some si =>
    match curB gs with
    | Some battle =>
      if isBattleEnabled decl (turnTimerInfo si) then
        let attacker := getSidePlayer battle ATTACKER in
        let defender := getSidePlayer battle DEFENDER in
        fold_left (startBattleTimer si) [attacker; defender] h
      else h
    | None => h
    end
  | _, _ => h
  end.

Definition onBattleNextStack (stack : CStack) (h : Handler) : Handler :=
  match gameState gameHandler, getStartInfo gameHandler with
  | Some gs, Some si =>
    match curB gs with
    | Some battle =>
      if isBattleEnabled decl (turnTimerInfo si) then
        let p := getOwner stack in
        if negb (isValidPlayer decl p) then h
        else
          let t := at_timer h p in
          let h0 := touch h p in
          let h1 := if battleTimer t <? battleTimer (turnTimerInfo si)
                    then set_timer h0 p (with_battleTimer (creatureTimer t) t)
                    else h0 in
          let h2 := set_timer h1 p
                      (with_creatureTimer (creatureTimer (turnTimerInfo si))
                                          (at_timer h1 p)) in
          sendAndApply p h2
      else h
    | None => h
    end
  | _, _ => h
  end.

(** The lambda of [onBattleLoop]; [key] is the player whose entry
    [tTimer] refers to. *)
Definition turnTimerUpdateApplier (si : StartInfo) (state : PlayerState)
    (key : PlayerColor) (waitTime : Z) (h : Handler) : Outcome (bool * Handler) :=
  let t := at_timer h key in
  let h0 := touch h key in
  if creatureTimer t >? 0 then
    match int_sub (creatureTimer t) waitTime with
    | None => Undefined
    | Some creature' =>
      let t' := with_creatureTimer creature' t in
      let h1 := set_timer h0 key t' in
      let frequency :=
        if creature' >? turnTimePropagateThreshold decl then
          match int_sub (creatureTimer (turnTimerInfo si)) creature' with
          | None => None
          | Some spent =>
            Some (if spent >? turnTimePropagateThreshold decl
                  then turnTimePropagateFrequency decl
                  else turnTimePropagateFrequencyCrit decl)
          end
        else Some (turnTimePropagateFrequencyCrit decl) in
      match frequency with
      | None => Undefined
      | Some frequency =>
        if is_INGAME (status state) then
          match int_rem creature' frequency with
          | None => Undefined
          | Some r =>
            if r =? 0
            then Done (true, perform (SendAndApply (mk_TurnTimeUpdate (color state) t')) h1)
            else Done (true, h1)
          end
        else Done (true, h1)
      end
    end
  else Done (false, h0).

Definition onBattleLoop (waitTime : Z) (h : Handler) : Outcome Handler :=
  match gameState gameHandler, getStartInfo gameHandler with
  | Some gs, Some si =>
    match curB gs with
    | Some battle =>
      match activeStack battle with
      | None => Done h
      | Some stack =>
        if negb (isValidPlayer decl (getOwner stack)) then Done h
        else
          match players gs (getSidePlayer battle (unitSide stack)) with
          | None => OutOfRange
          | Some state =>
            if human state && isBattleEnabled decl (turnTimerInfo si) then
              match turnTimerUpdateApplier si state (color state) waitTime h with
              | Done (true, h1) => Done h1
              | Done (false, h1) =>
                let t := at_timer h1 (color state) in
                if battleTimer t >? 0 then
                  let h2 := set_timer h1 (color state)
                              (with_creatureTimer (battleTimer t) t) in
                  let h3 := set_timer h2 (color state)
                              (with_battleTimer 0 (at_timer h2 (color state))) in
                  match turnTimerUpdateApplier si state (color state) 0 h3 with
                  | Done (_, h4) => Done h4
                  | OutOfRange => OutOfRange
                  | Undefined => Undefined
                  | OutOfFuel => OutOfFuel
                  end
                else
                  Done (perform
                          (MakePlayerBattleAction (color state)
                             (mk_BattleAction DEFEND (unitSide stack) (unitId stack)))
                          h1)
              | OutOfRange => OutOfRange
              | Undefined => Undefined
              | OutOfFuel => OutOfFuel
              end
            else Done h
          end
      end
    | None => Done h
    end
  | _, _ => Done h
  end.

End Handler.

(** ** A game for concrete runs

    Player 1 is human and in the game, player 2 is a computer player;
    the configured timer gives 30 s per turn, 60 s of base time, 20 s of
    battle time and 10 s per creature (in milliseconds). *)

Definition ex_decl : Declarations :=
  mk_Declarations 5000 1000 3000
    (fun t => turnTimer t >? 0) (fun t => creatureTimer t >? 0)
    (fun p => Nat.ltb p 8) (mk_TurnTimerInfo 0 0 0 0).

Definition ex_config : TurnTimerInfo := mk_TurnTimerInfo 30000 60000 20000 10000.

Definition ex_players (p : PlayerColor) : option PlayerState :=
  match p with
  | 1%nat => Some (mk_PlayerState 1%nat true INGAME)
  | 2%nat => Some (mk_PlayerState 2%nat false INGAME)
  | _ => None
  end.

Definition ex_battle (active : option CStack) : BattleInfo :=
  mk_BattleInfo active (fun s => match s with ATTACKER => 1%nat | DEFENDER => 255%nat end).

Definition ex_game (battle : option BattleInfo) (pending : bool) : CGameHandler :=
  mk_CGameHandler (Some (mk_StartInfo ex_config))
                  (Some (mk_CGameState ex_players battle))
                  (fun _ => pending).

Definition ex_handler (t : TurnTimerInfo) : Handler :=
  mk_Handler (fun p => match p with 1%nat => Some t | _ => None end) [].

End TurnTimer.

(** ** Reasoning about runs *)

Ltac run_prims :=
  unfold bind, ret, emit, getNodes, getDestination, getAINode, putNodes,
         modifyDestination, updateAINode;
  cbn [fst snd nodes destination trace info blocked set_blocked].

Lemma store_set_eq (st : NodeStore) (p : NodePtr) (n : AIPathNode) :
  store_set st p n p = n.
Proof. unfold store_set. now rewrite Nat.eqb_refl. Qed.

Lemma store_set_neq (st : NodeStore) (p q : NodePtr) (n : AIPathNode) :
  q <> p -> store_set st p n q = st q.
Proof.
  intros Hne. unfold store_set.
  destruct (Nat.eqb q p) eqn:E; [apply Nat.eqb_eq in E; contradiction | reflexivity].
Qed.

Lemma ex_link_records_links_only (b : BlockingReason) (r : bool) :
  records_links_only (ex_pathfinder b r).
Proof.
  intros st s d p. cbn. unfold ex_link, store_set.
  destruct (Nat.eqb p (node (info d))) eqn:E.
  - apply Nat.eqb_eq in E. subst p. split; reflexivity.
  - split; reflexivity.
Qed.

Lemma amax_max (a b : Z) : amax a b = Z.max a b.
Proof. unfold amax. destruct (Z.ltb_spec a b); lia. Qed.

(** ** The inefficiency short-circuit *)

Section Inefficiency.

Variable cb : Callback.
Variable nodeStorage : AINodeStorage.
Variable pathfinder : Pathfinder.

Lemma process_inefficient (source : PathNodeInfo) (w : World) :
  isMovementIneficient nodeStorage (nodes w) source (destination w) = true ->
  process cb nodeStorage pathfinder source w =
  (tt, mk_World
         (store_set (nodes w) (node (info (destination w)))
                    (set_locked true (nodes w (node (info (destination w))))))
         (set_blocked true (destination w))
         (trace w ++ [CallIsMovementIneficient])).
Proof.
  intros Hineff. unfold process. run_prims. rewrite Hineff. reflexivity.
Qed.

(** C9. When the storage reports the transition source -> destination as
    inefficient, [process] sets the destination node's [locked] and the
    destination's [blocked] to true and returns: the only call it made is
    the inefficiency query, so neither the classifier nor a bypass
    strategy ran; the destination still names the same node and no other
    node was touched. *)
Theorem process_inefficient_locks_and_blocks :
  forall (source : PathNodeInfo) (w : World),
    isMovementIneficient nodeStorage (nodes w) source (destination w) = true ->
    let w' := snd (process cb nodeStorage pathfinder source w) in
    locked (nodes w' (node (info (destination w')))) = true /\
    blocked (destination w') = true /\
    trace w' = trace w ++ [CallIsMovementIneficient] /\
    info (destination w') = info (destination w) /\
    (forall p, p <> node (info (destination w)) -> nodes w' p = nodes w p).
Proof.
  intros source w Hineff. rewrite (process_inefficient source w Hineff).
  cbn [snd nodes destination trace info blocked set_blocked].
  repeat split.
  - now rewrite store_set_eq.
  - intros p Hp. now apply store_set_neq.
Qed.

End Inefficiency.

Lemma process_inefficient_witness :
  let ns := ex_storage true true false None 400 300 in
  let pf := ex_pathfinder DESTINATION_VISIT false in
  let w := ex_world (ex_nodes false false 0) (ex_destination None None ALLIES) in
  let w' := snd (process (ex_cb 0 MISSION_NONE [] []) ns pf ex_source w) in
  isMovementIneficient ns (nodes w) ex_source (destination w) = true /\
  locked (nodes w' 1%nat) = true /\ blocked (destination w') = true /\
  trace w' = [CallIsMovementIneficient].
Proof.
  cbv zeta. split; [reflexivity |].
  pose proof (process_inefficient_locks_and_blocks
                (ex_cb 0 MISSION_NONE [] [])
                (ex_storage true true false None 400 300)
                (ex_pathfinder DESTINATION_VISIT false) ex_source
                (ex_world (ex_nodes false false 0) (ex_destination None None ALLIES))
                eq_refl) as H.
  cbv zeta in H. destruct H as (H1 & H2 & H3 & _). 
  split; [exact H1 | split; [exact H2 | exact H3]].
Defined.

(** ** The final verdict *)

Section Verdict.

Variable cb : Callback.
Variable nodeStorage : AINodeStorage.
Variable pathfinder : Pathfinder.

(** What [process] does once the transition is not inefficient and the
    classifier found a blocking reason: the [switch], then the verdict. *)
Lemma process_classified (source : PathNodeInfo) (w : World) :
  isMovementIneficient nodeStorage (nodes w) source (destination w) = false ->
  getBlockingReason pathfinder (nodes w) source (destination w) <> NONE ->
  process cb nodeStorage pathfinder source w =
  let (allowBypass, w1) :=
    dispatch cb nodeStorage pathfinder
      (getBlockingReason pathfinder (nodes w) source (destination w))
      (getGuardingCreatures cb (coord (info (destination w)))) source (classified w) in
  verdict nodeStorage allowBypass source w1.
Proof.
  intros Hineff Hreason. unfold process. run_prims. rewrite Hineff. run_prims.
  destruct (getBlockingReason pathfinder (nodes w) source (destination w)) eqn:E;
    try contradiction; cbn [is_NONE]; run_prims; unfold classified;
    rewrite <- !app_assoc; reflexivity.
Qed.

Lemma verdict_world (allowBypass : bool) (source : PathNodeInfo) (w : World) :
  let w' := snd (verdict nodeStorage allowBypass source w) in
  blocked (destination w') =
    negb allowBypass || isDistanceLimitReached nodeStorage (nodes w) source (destination w) /\
  info (destination w') = info (destination w) /\
  nodes w' = store_set (nodes w) (node (info (destination w)))
               (set_locked (negb allowBypass) (nodes w (node (info (destination w))))).
Proof.
  unfold verdict. run_prims. destruct allowBypass; cbn [negb orb]; run_prims;
    repeat split; reflexivity.
Qed.

(** C7. An evaluation that reaches the last two statements of [process]
    (the transition is not inefficient, the blocking reason is not NONE)
    leaves [blocked] = [!allowBypass || isDistanceLimitReached] and the
    destination node's [locked] = [!allowBypass], where [allowBypass] is
    what the [switch] computed; so an allowed bypass beyond the distance
    limit gives blocked = true with locked = false. *)
Theorem process_final_verdict :
  forall (source : PathNodeInfo) (w w1 : World) (allowBypass : bool),
    isMovementIneficient nodeStorage (nodes w) source (destination w) = false ->
    getBlockingReason pathfinder (nodes w) source (destination w) <> NONE ->
    dispatch cb nodeStorage pathfinder
      (getBlockingReason pathfinder (nodes w) source (destination w))
      (getGuardingCreatures cb (coord (info (destination w)))) source (classified w)
      = (allowBypass, w1) ->
    let w' := snd (process cb nodeStorage pathfinder source w) in
    let limit := isDistanceLimitReached nodeStorage (nodes w1) source (destination w1) in
    blocked (destination w') = negb allowBypass || limit /\
    locked (nodes w' (node (info (destination w')))) = negb allowBypass /\
    (allowBypass = true -> limit = true ->
       blocked (destination w') = true /\
       locked (nodes w' (node (info (destination w')))) = false).
Proof.
  intros source w w1 allowBypass Hineff Hreason Hswitch.
  rewrite (process_classified source w Hineff Hreason), Hswitch.
  pose proof (verdict_world allowBypass source w1) as (Hb & Hi & Hn).
  cbv zeta. rewrite Hb, Hi, Hn, store_set_eq. cbn [locked set_locked].
  split; [reflexivity | split; [reflexivity |]].
  intros -> Hlimit. cbv zeta in Hlimit. rewrite Hlimit. split; reflexivity.
Qed.

End Verdict.

Lemma process_final_verdict_witness :
  let cb := ex_cb 0 MISSION_NONE [] [] in
  let ns := ex_storage true false true None 400 300 in
  let pf := ex_pathfinder DESTINATION_VISIT false in
  let w := ex_world (ex_nodes false false 0) (ex_destination None None ALLIES) in
  let w' := snd (process cb ns pf ex_source w) in
  isMovementIneficient ns (nodes w) ex_source (destination w) = false /\
  getBlockingReason pf (nodes w) ex_source (destination w) <> NONE /\
  blocked (destination w') = true /\ locked (nodes w' 1%nat) = false.
Proof.
  cbv zeta. split; [reflexivity | split; [discriminate |]].
  pose proof (process_final_verdict
                (ex_cb 0 MISSION_NONE [] [])
                (ex_storage true false true None 400 300)
                (ex_pathfinder DESTINATION_VISIT false) ex_source
                (ex_world (ex_nodes false false 0) (ex_destination None None ALLIES))
                _ true eq_refl ltac:(discriminate) eq_refl) as H.
  cbv zeta in H. destruct H as (_ & _ & H). exact (H eq_refl eq_refl).
Defined.

(** ** Removable-object bypass *)

Lemma hero_eqb_eq (a b : option HeroPtr) : hero_eqb a b = true <-> a = b.
Proof.
  destruct a as [h1|], b as [h2|]; cbn; split; intros H;
    try discriminate; try reflexivity.
  - apply Nat.eqb_eq in H. now subst.
  - injection H as ->. apply Nat.eqb_refl.
Qed.

Section RemovableObject.

Variable cb : Callback.
Variable nodeStorage : AINodeStorage.
Variable pathfinder : Pathfinder.

(** C1, as the code has it. For a destination that hosts a quest guard
    whose quest has no mission, [bypassRemovableObject] returns false
    (bypass not allowed) and attaches no special action: it leaves every
    node and the destination as they were and only records its call. The
    edge evaluation that asks it (a blockvis destination with that
    object, transition not inefficient) therefore ends with the
    destination blocked and its node locked; the lock is the only thing
    written, so no node carries a new special action, and no guard or
    battle bypass is tried, whatever guards the destination. *)
Theorem quest_guard_without_mission_is_refused :
  forall (object : ObjPtr) (source : PathNodeInfo) (w : World),
    ID cb object = Obj.QUEST_GUARD ->
    missionType cb (questOf cb object) = MISSION_NONE ->
    bypassRemovableObject cb nodeStorage pathfinder object source w =
    (false, mk_World (nodes w) (destination w) (trace w ++ [CallBypassRemovableObject]))
    /\
    (nodeObject (info (destination w)) = Some object ->
     isMovementIneficient nodeStorage (nodes w) source (destination w) = false ->
     getBlockingReason pathfinder (nodes w) source (destination w)
       = DESTINATION_BLOCKVIS ->
     let w' := snd (process cb nodeStorage pathfinder source w) in
     let p := node (info (destination w)) in
     blocked (destination w') = true /\
     info (destination w') = info (destination w) /\
     locked (nodes w' p) = true /\
     nodes w' = store_set (nodes w) p (set_locked true (nodes w p)) /\
     (forall q, specialAction (nodes w' q) = specialAction (nodes w q)) /\
     trace w' = trace w ++ [CallIsMovementIneficient; CallGetBlockingReason;
                            CallGetGuardingCreatures (coord (info (destination w)));
                            CallBypassRemovableObject]).
Proof.
  intros object source w Hid Hmission.
  assert (Hrefused : forall w0,
    bypassRemovableObject cb nodeStorage pathfinder object source w0 =
    (false, mk_World (nodes w0) (destination w0)
                     (trace w0 ++ [CallBypassRemovableObject]))).
  { intros w0. unfold bypassRemovableObject. run_prims.
    rewrite Hid, Hmission. reflexivity. }
  split; [apply Hrefused |].
  intros Hobject Hineff Hreason. cbv zeta.
  assert (Hne : getBlockingReason pathfinder (nodes w) source (destination w) <> NONE)
    by (rewrite Hreason; discriminate).
  assert (Hrun :
    process cb nodeStorage pathfinder source w =
    (tt, mk_World
           (store_set (nodes w) (node (info (destination w)))
                      (set_locked true (nodes w (node (info (destination w))))))
           (set_blocked true (destination w))
           (trace w ++ [CallIsMovementIneficient; CallGetBlockingReason;
                        CallGetGuardingCreatures (coord (info (destination w)));
                        CallBypassRemovableObject]))).
  { rewrite (process_classified cb nodeStorage pathfinder source w Hineff Hne), Hreason.
    cbn [dispatch]. run_prims.
    change (destination (classified w)) with (destination w). rewrite Hobject.
    rewrite Hrefused. cbn [andb]. unfold verdict. run_prims.
    cbn [negb classified trace]. rewrite <- !app_assoc. reflexivity. }
  rewrite Hrun. cbn [snd nodes destination trace blocked set_blocked info].
  rewrite store_set_eq. repeat split.
  intros q. unfold store_set.
  destruct (Nat.eqb q (node (info (destination w)))) eqn:E; [| reflexivity].
  apply Nat.eqb_eq in E. subst q. reflexivity.
Qed.

(** C8, as the code has it. On a destination whose object is not a quest
    guard, border guard or border gate, is not removable, and on which no
    enemy hero stands, [bypassRemovableObject] succeeds exactly when the
    hero the storage gives for the destination's node is the hero that
    occupies the destination ([destination.nodeHero]); it changes no node
    and not the destination, so no special action is attached. *)
Theorem own_hero_reentry :
  forall (object : ObjPtr) (source : PathNodeInfo) (w : World),
    is_quest_gate (ID cb object) = false ->
    not_null (nodeHero (info (destination w)))
      && is_ENEMIES (heroRelations (info (destination w))) = false ->
    isObjectRemovable pathfinder object = false ->
    let r := bypassRemovableObject cb nodeStorage pathfinder object source w in
    (fst r = true <->
       getHero nodeStorage (nodes w) (node (info (destination w)))
       = nodeHero (info (destination w))) /\
    nodes (snd r) = nodes w /\
    destination (snd r) = destination w.
Proof.
  intros object source w Hgate Henemy Hremovable.
  unfold bypassRemovableObject. run_prims.
  rewrite Hgate, Henemy, Hremovable. cbn [negb andb]. run_prims.
  rewrite <- hero_eqb_eq.
  destruct (hero_eqb _ _); cbn; repeat split; auto; discriminate.
Qed.

End RemovableObject.

(** C1, a run. A quest guard without a mission on the destination: the
    claim expects the bypass to be allowed, the code refuses it. *)
Lemma quest_guard_without_mission_run :
  let cb := ex_cb Obj.QUEST_GUARD MISSION_NONE [] [] in
  let ns := ex_storage true false false None 400 300 in
  let pf := ex_pathfinder DESTINATION_BLOCKVIS false in
  let w := ex_world (ex_nodes false false 0) (ex_destination (Some 5%nat) None ALLIES) in
  ID cb 5%nat = Obj.QUEST_GUARD /\
  missionType cb (questOf cb 5%nat) = MISSION_NONE /\
  fst (bypassRemovableObject cb ns pf 5%nat ex_source w) = false /\
  blocked (destination (snd (process cb ns pf ex_source w))) = true.
Proof. cbv zeta. repeat split; reflexivity. Qed.

Lemma quest_guard_without_mission_witness :
  let cb := ex_cb Obj.QUEST_GUARD MISSION_NONE [] [7%nat] in
  let ns := ex_storage true false false (Some 2%nat) 400 300 in
  let pf := ex_pathfinder DESTINATION_BLOCKVIS false in
  let w := ex_world (ex_nodes false false 0) (ex_destination (Some 5%nat) None ALLIES) in
  let w' := snd (process cb ns pf ex_source w) in
  ID cb 5%nat = Obj.QUEST_GUARD /\
  missionType cb (questOf cb 5%nat) = MISSION_NONE /\
  bypassRemovableObject cb ns pf 5%nat ex_source w =
  (false, mk_World (nodes w) (destination w) [CallBypassRemovableObject]) /\
  blocked (destination w') = true /\
  locked (nodes w' 1%nat) = true /\
  specialAction (nodes w' 1%nat) = None.
Proof.
  cbv zeta. split; [reflexivity | split; [reflexivity |]].
  destruct (quest_guard_without_mission_is_refused
              (ex_cb Obj.QUEST_GUARD MISSION_NONE [] [7%nat])
              (ex_storage true false false (Some 2%nat) 400 300)
              (ex_pathfinder DESTINATION_BLOCKVIS false) 5%nat ex_source
              (ex_world (ex_nodes false false 0)
                        (ex_destination (Some 5%nat) None ALLIES))
              eq_refl eq_refl) as [Hbypass Hprocess].
  split; [exact Hbypass |].
  destruct (Hprocess eq_refl eq_refl eq_refl) as (Hb & _ & Hl & _ & Ha & _).
  split; [exact Hb |]. split; [exact Hl |]. exact (Ha 1%nat).
Defined.

(** C8, a run. A mine-like object (identifier 53) that is not removable,
    with no hero on its tile: the hero of the destination's node is the
    hero evaluating the move (the helper's hero, who is also the hero of
    the source's node), yet the bypass is refused, because the tile's
    occupant is the null pointer. *)
Lemma blockvis_without_occupant_run :
  let cb := ex_cb 53 MISSION_NONE [] [] in
  let ns := ex_storage true false false None 400 300 in
  let pf := ex_pathfinder DESTINATION_BLOCKVIS false in
  let w := ex_world (ex_nodes false false 0) (ex_destination (Some 5%nat) None ALLIES) in
  is_quest_gate (ID cb 5%nat) = false /\
  isObjectRemovable pf 5%nat = false /\
  nodeHero (info (destination w)) = None /\
  getHero ns (nodes w) (node (info (destination w))) = Some (helperHero pf) /\
  getHero ns (nodes w) (node ex_source) = Some (helperHero pf) /\
  fst (bypassRemovableObject cb ns pf 5%nat ex_source w) = false.
Proof. cbv zeta. repeat split; reflexivity. Qed.

Lemma own_hero_reentry_witness :
  let cb := ex_cb 53 MISSION_NONE [] [] in
  let ns := ex_storage true false false None 400 300 in
  let pf := ex_pathfinder DESTINATION_BLOCKVIS false in
  let w := ex_world (ex_nodes false false 0)
                    (ex_destination (Some 5%nat) (Some 1%nat) SAME_PLAYER) in
  let r := bypassRemovableObject cb ns pf 5%nat ex_source w in
  is_quest_gate (ID cb 5%nat) = false /\
  isObjectRemovable pf 5%nat = false /\
  fst r = true /\ nodes (snd r) = nodes w /\ destination (snd r) = destination w.
Proof.
  cbv zeta. split; [reflexivity | split; [reflexivity |]].
  pose proof (own_hero_reentry
                (ex_cb 53 MISSION_NONE [] [])
                (ex_storage true false false None 400 300)
                (ex_pathfinder DESTINATION_BLOCKVIS false) 5%nat ex_source
                (ex_world (ex_nodes false false 0)
                          (ex_destination (Some 5%nat) (Some 1%nat) SAME_PLAYER))
                eq_refl eq_refl eq_refl) as H.
  cbv zeta in H. destruct H as (Hiff & Hn & Hd).
  split; [apply Hiff; reflexivity | split; [exact Hn | exact Hd]].
Defined.

(** ** Battle bypass *)

Section Battle.

Variable cb : Callback.
Variable nodeStorage : AINodeStorage.
Variable pathfinder : Pathfinder.

(** The three ways [bypassBattle] gives up, and its successful run. *)
Lemma bypassBattle_not_allocated (source : PathNodeInfo) (w : World) (st1 : NodeStore) :
  battleNodeOf nodeStorage w = (st1, None) ->
  bypassBattle nodeStorage pathfinder source w =
  (false, mk_World st1 (destination w)
                   (trace w ++ [CallBypassBattle; CallGetOrCreateNode])).
Proof.
  unfold battleNodeOf, bypassBattle. run_prims. intros ->. run_prims.
  rewrite <- !app_assoc. reflexivity.
Qed.

Lemma bypassBattle_locked (source : PathNodeInfo) (w : World) (st1 : NodeStore)
    (battleNode : NodePtr) :
  battleNodeOf nodeStorage w = (st1, Some battleNode) ->
  locked (st1 battleNode) = true ->
  bypassBattle nodeStorage pathfinder source w =
  (false, mk_World st1 (destination w)
                   (trace w ++ [CallBypassBattle; CallGetOrCreateNode])).
Proof.
  unfold battleNodeOf, bypassBattle. run_prims. intros -> Hlocked. run_prims.
  rewrite Hlocked, <- !app_assoc. reflexivity.
Qed.

Lemma bypassBattle_too_costly (source : PathNodeInfo) (w : World) (st1 : NodeStore)
    (battleNode : NodePtr) :
  battleNodeOf nodeStorage w = (st1, Some battleNode) ->
  locked (st1 battleNode) = false ->
  (estimatedLoss nodeStorage st1 source (coord (info (destination w)))
     <? actualArmyValue nodeStorage st1 source) = false ->
  bypassBattle nodeStorage pathfinder source w =
  (false, mk_World st1 (destination w)
                   (trace w ++ [CallBypassBattle; CallGetOrCreateNode;
                                CallEvaluateDanger; CallEvaluateArmyLoss])).
Proof.
  unfold battleNodeOf, bypassBattle, estimatedLoss, estimatedDanger. run_prims.
  intros -> Hlocked Hloss. run_prims. rewrite Hlocked. run_prims. rewrite Hloss.
  rewrite <- !app_assoc. reflexivity.
Qed.

Lemma bypassBattle_accepted (source : PathNodeInfo) (w : World) (st1 : NodeStore)
    (battleNode : NodePtr) :
  battleNodeOf nodeStorage w = (st1, Some battleNode) ->
  locked (st1 battleNode) = false ->
  (estimatedLoss nodeStorage st1 source (coord (info (destination w)))
     <? actualArmyValue nodeStorage st1 source) = true ->
  let dst' := set_node battleNode (destination w) in
  let committed := commit nodeStorage st1 dst' source in
  let withLoss :=
    store_set committed battleNode
      (set_armyLoss
         (u64 (armyLoss (committed battleNode)
               + estimatedLoss nodeStorage st1 source (coord (info (destination w)))))
         (committed battleNode)) in
  let withDanger :=
    store_set withLoss battleNode
      (set_danger
         (amax (danger (withLoss battleNode))
               (estimatedDanger nodeStorage st1 source (coord (info (destination w)))))
         (withLoss battleNode)) in
  let linked := previousNodeRule pathfinder withDanger source dst' in
  bypassBattle nodeStorage pathfinder source w =
  (true,
   mk_World
     (store_set linked battleNode
        (set_specialAction (Some (BattleAction (coord (info (destination w)))))
                           (linked battleNode)))
     dst'
     (trace w ++ [CallBypassBattle; CallGetOrCreateNode; CallEvaluateDanger;
                  CallEvaluateArmyLoss; CallCommit; CallPreviousNodeRule])).
Proof.
  unfold battleNodeOf, bypassBattle, estimatedLoss, estimatedDanger. run_prims.
  intros -> Hlocked Hloss. run_prims. rewrite Hlocked. run_prims. rewrite Hloss.
  run_prims. rewrite <- !app_assoc. cbn [app].
  reflexivity.
Qed.

End Battle.

Section BattleClaims.

Variable cb : Callback.
Variable nodeStorage : AINodeStorage.
Variable pathfinder : Pathfinder.

(** [bypassBattle] answers true in its last branch only. *)
Lemma bypassBattle_true_iff (source : PathNodeInfo) (w : World) :
  let st1 := fst (battleNodeOf nodeStorage w) in
  fst (bypassBattle nodeStorage pathfinder source w) = true <->
  (exists battleNode,
      snd (battleNodeOf nodeStorage w) = Some battleNode /\
      locked (st1 battleNode) = false) /\
  estimatedLoss nodeStorage st1 source (coord (info (destination w)))
    < actualArmyValue nodeStorage st1 source.
Proof.
  cbv zeta.
  destruct (battleNodeOf nodeStorage w) as [st1 [bn|]] eqn:Hnode; cbn [fst snd].
  - destruct (locked (st1 bn)) eqn:Hlocked.
    + rewrite (bypassBattle_locked _ _ source w st1 bn Hnode Hlocked). cbn [fst].
      split; [discriminate |].
      intros [(bn' & Hbn' & Hfree) _]. injection Hbn' as <-. congruence.
    + destruct (estimatedLoss nodeStorage st1 source (coord (info (destination w)))
                  <? actualArmyValue nodeStorage st1 source) eqn:Hloss.
      * rewrite (bypassBattle_accepted _ _ source w st1 bn Hnode Hlocked Hloss).
        cbn [fst]. apply Z.ltb_lt in Hloss. split.
        -- intros _. split; [exists bn; auto | exact Hloss].
        -- reflexivity.
      * rewrite (bypassBattle_too_costly _ _ source w st1 bn Hnode Hlocked Hloss).
        cbn [fst]. apply Z.ltb_ge in Hloss. split; [discriminate |].
        intros [_ Hlt]. lia.
  - rewrite (bypassBattle_not_allocated _ _ source w st1 Hnode). cbn [fst].
    split; [discriminate |].
    intros [(bn' & Hbn' & _) _]. discriminate.
Qed.

(** C4, as the code has it. [bypassBattle] succeeds exactly when the
    battle-variant node could be allocated, that node is not locked, and
    the estimated loss is strictly below the remaining army value of the
    source's actor; an estimated loss equal to the remaining army value
    always fails. *)
Theorem bypassBattle_acceptance_threshold :
  forall (source : PathNodeInfo) (w : World),
    let st1 := fst (battleNodeOf nodeStorage w) in
    let loss := estimatedLoss nodeStorage st1 source (coord (info (destination w))) in
    let remaining := actualArmyValue nodeStorage st1 source in
    (fst (bypassBattle nodeStorage pathfinder source w) = true <->
       (exists battleNode,
           snd (battleNodeOf nodeStorage w) = Some battleNode /\
           locked (st1 battleNode) = false) /\
       loss < remaining) /\
    (loss = remaining -> fst (bypassBattle nodeStorage pathfinder source w) = false).
Proof.
  intros source w. cbv zeta. split; [apply bypassBattle_true_iff |].
  intros Heq.
  destruct (fst (bypassBattle nodeStorage pathfinder source w)) eqn:Hrun;
    [| reflexivity].
  apply bypassBattle_true_iff in Hrun. cbv zeta in Hrun. destruct Hrun as [_ Hlt]. lia.
Qed.

(** C6. After a successful [bypassBattle] the destination names the
    battle-variant node; that node's army loss is the loss it held when
    [commit] returned plus the estimated loss (in [uint64_t]), its danger
    is the maximum of the danger it held then and the estimated danger,
    hence one of the two and never their sum, and its special action is
    the simulated battle at the destination's coordinate. The rule that
    records the predecessor is taken to leave loss and danger alone. *)
Theorem bypassBattle_success_updates_battle_node :
  forall (source : PathNodeInfo) (w w' : World),
    records_links_only pathfinder ->
    bypassBattle nodeStorage pathfinder source w = (true, w') ->
    exists (st1 : NodeStore) (battleNode : NodePtr),
      battleNodeOf nodeStorage w = (st1, Some battleNode) /\
      node (info (destination w')) = battleNode /\
      let committed :=
        commit nodeStorage st1 (set_node battleNode (destination w)) source in
      let loss := estimatedLoss nodeStorage st1 source (coord (info (destination w))) in
      let danger' := estimatedDanger nodeStorage st1 source (coord (info (destination w))) in
      armyLoss (nodes w' battleNode) = u64 (armyLoss (committed battleNode) + loss) /\
      danger (nodes w' battleNode) = Z.max (danger (committed battleNode)) danger' /\
      (danger (nodes w' battleNode) = danger (committed battleNode) \/
       danger (nodes w' battleNode) = danger') /\
      specialAction (nodes w' battleNode)
        = Some (BattleAction (coord (info (destination w)))).
Proof.
  intros source w w' Hlinks Hrun.
  destruct (battleNodeOf nodeStorage w) as [st1 [bn|]] eqn:Hnode.
  2: { rewrite (bypassBattle_not_allocated _ _ source w st1 Hnode) in Hrun.
       discriminate. }
  destruct (locked (st1 bn)) eqn:Hlocked.
  { rewrite (bypassBattle_locked _ _ source w st1 bn Hnode Hlocked) in Hrun.
    discriminate. }
  destruct (estimatedLoss nodeStorage st1 source (coord (info (destination w)))
              <? actualArmyValue nodeStorage st1 source) eqn:Hloss.
  2: { rewrite (bypassBattle_too_costly _ _ source w st1 bn Hnode Hlocked Hloss) in Hrun.
       discriminate. }
  rewrite (bypassBattle_accepted _ _ source w st1 bn Hnode Hlocked Hloss) in Hrun.
  cbv zeta in Hrun. injection Hrun as <-.
  exists st1, bn. cbn [nodes destination]. split; [reflexivity |]. split; [reflexivity |].
  cbv zeta. rewrite store_set_eq. cbn [armyLoss danger specialAction set_specialAction].
  match goal with
  | |- context [previousNodeRule pathfinder ?st ?s ?d bn] =>
      destruct (Hlinks st s d bn) as [HL HD]; rewrite HL, HD
  end.
  rewrite !store_set_eq. cbn [armyLoss danger set_danger set_armyLoss].
  rewrite amax_max.
  repeat split; try reflexivity. lia.
Qed.

(** C10. The remaining army value is the 64-bit unsigned difference of the
    actor's army value and the loss accumulated on the source's node: when
    the accumulated loss exceeds the army value the difference wraps to
    [armyValue - armyLoss + 2^64], the oracle is asked with that value and
    the strict test [loss < actualArmyValue] is made against it. *)
Theorem remaining_army_value_wraps :
  forall (source : PathNodeInfo) (w : World) (st1 : NodeStore) (battleNode : NodePtr),
    battleNodeOf nodeStorage w = (st1, Some battleNode) ->
    locked (st1 battleNode) = false ->
    let army := armyValue (actors nodeStorage (actor (st1 (node source)))) in
    let lost := armyLoss (st1 (node source)) in
    let hero' := getHero nodeStorage st1 (node source) in
    let danger' := estimatedDanger nodeStorage st1 source (coord (info (destination w))) in
    actualArmyValue nodeStorage st1 source = (army - lost) mod 2 ^ 64 /\
    (0 <= army < lost -> lost < 2 ^ 64 ->
       actualArmyValue nodeStorage st1 source = army - lost + 2 ^ 64 /\
       (fst (bypassBattle nodeStorage pathfinder source w) = true <->
          u64 (evaluateArmyLoss nodeStorage hero' (army - lost + 2 ^ 64) danger')
            < army - lost + 2 ^ 64)).
Proof.
  intros source w st1 bn Hnode Hlocked. cbv zeta.
  split; [reflexivity |].
  intros Harmy Hlost.
  assert (Hwrap : actualArmyValue nodeStorage st1 source
                  = armyValue (actors nodeStorage (actor (st1 (node source))))
                    - armyLoss (st1 (node source)) + 2 ^ 64).
  { unfold actualArmyValue, u64. cbv zeta.
    symmetry. apply Z.mod_unique with (q := -1); lia. }
  split; [exact Hwrap |].
  pose proof (bypassBattle_true_iff source w) as Hiff.
  cbv zeta in Hiff. rewrite Hnode in Hiff. cbn [fst snd] in Hiff.
  unfold estimatedLoss in Hiff. rewrite Hwrap in Hiff.
  rewrite Hiff. split.
  - intros [_ H]. exact H.
  - intros H. split; [exists bn; auto | exact H].
Qed.

(** The lock the rule itself tests is the one of the battle-variant node.
    When that node is already locked, [bypassBattle] fails without asking
    the risk oracle and without committing, and an edge that needs the
    battle (a blocked destination with an enemy hero on it) ends with
    [blocked] and [locked] both true: the calls made are the three queries
    of [process], [bypassBlocker], [bypassBattle] and the node request,
    nothing more. *)
Theorem locked_battle_node_blocks :
  forall (source : PathNodeInfo) (w : World) (st1 : NodeStore) (battleNode : NodePtr),
    isMovementIneficient nodeStorage (nodes w) source (destination w) = false ->
    getBlockingReason pathfinder (nodes w) source (destination w) = DESTINATION_BLOCKED ->
    not_null (nodeHero (info (destination w)))
      && is_ENEMIES (heroRelations (info (destination w))) = true ->
    battleNodeOf nodeStorage w = (st1, Some battleNode) ->
    locked (st1 battleNode) = true ->
    let w' := snd (process cb nodeStorage pathfinder source w) in
    fst (bypassBattle nodeStorage pathfinder source w) = false /\
    blocked (destination w') = true /\
    locked (nodes w' (node (info (destination w')))) = true /\
    trace w' = trace w ++ [CallIsMovementIneficient; CallGetBlockingReason;
                           CallGetGuardingCreatures (coord (info (destination w)));
                           CallBypassBlocker; CallBypassBattle; CallGetOrCreateNode].
Proof.
  intros source w st1 bn Hineff Hreason Henemy Hnode Hlocked. cbv zeta.
  split.
  { now rewrite (bypassBattle_locked _ _ source w st1 bn Hnode Hlocked). }
  assert (Hne : getBlockingReason pathfinder (nodes w) source (destination w) <> NONE)
    by (rewrite Hreason; discriminate).
  assert (Hrun :
    process cb nodeStorage pathfinder source w =
    (tt, mk_World
           (store_set st1 (node (info (destination w)))
                      (set_locked true (st1 (node (info (destination w))))))
           (set_blocked true (destination w))
           (trace w ++ [CallIsMovementIneficient; CallGetBlockingReason;
                        CallGetGuardingCreatures (coord (info (destination w)));
                        CallBypassBlocker; CallBypassBattle; CallGetOrCreateNode]))).
  { rewrite (process_classified cb nodeStorage pathfinder source w Hineff Hne), Hreason.
    cbn [dispatch]. unfold bypassBlocker. run_prims.
    change (destination (classified w)) with (destination w). rewrite Henemy.
    match goal with
    | |- context [bypassBattle nodeStorage pathfinder source ?w0] =>
        rewrite (bypassBattle_locked _ _ source w0 st1 bn Hnode Hlocked)
    end.
    unfold verdict. run_prims. cbn [negb classified trace].
    rewrite <- !app_assoc. reflexivity. }
  rewrite Hrun. cbn [snd nodes destination trace blocked set_blocked info].
  rewrite store_set_eq. repeat split; reflexivity.
Qed.

End BattleClaims.

(** C4, a run. The battle-variant node (node 2) is already locked: the
    estimated loss 300 is strictly below the remaining army value 1000,
    and still the bypass fails. *)
Lemma locked_battle_node_run :
  let ns := ex_storage true false false (Some 2%nat) 400 300 in
  let pf := ex_pathfinder DESTINATION_BLOCKED false in
  let w := ex_world (ex_nodes false true 0) (ex_destination None (Some 9%nat) ENEMIES) in
  estimatedLoss ns (nodes w) ex_source gate = 300 /\
  actualArmyValue ns (nodes w) ex_source = 1000 /\
  fst (bypassBattle ns pf ex_source w) = false.
Proof. cbv zeta. repeat split; reflexivity. Qed.

Lemma bypassBattle_acceptance_threshold_witness :
  let ns := ex_storage true false false (Some 2%nat) 400 1000 in
  let pf := ex_pathfinder DESTINATION_BLOCKED false in
  let w := ex_world (ex_nodes false false 0) (ex_destination None (Some 9%nat) ENEMIES) in
  estimatedLoss ns (nodes w) ex_source gate = actualArmyValue ns (nodes w) ex_source /\
  fst (bypassBattle ns pf ex_source w) = false.
Proof.
  cbv zeta. split; [reflexivity |].
  pose proof (bypassBattle_acceptance_threshold
                (ex_storage true false false (Some 2%nat) 400 1000)
                (ex_pathfinder DESTINATION_BLOCKED false) ex_source
                (ex_world (ex_nodes false false 0)
                          (ex_destination None (Some 9%nat) ENEMIES))) as H.
  cbv zeta in H. destruct H as [_ H]. apply H. reflexivity.
Defined.

(** The scenario of an army worth 1000 with nothing lost yet, danger 400
    and estimated loss 300: the battle-variant node ends with loss 300,
    danger 400 and the simulated battle at the destination. *)
Lemma bypassBattle_success_witness :
  let ns := ex_storage true false false (Some 2%nat) 400 300 in
  let pf := ex_pathfinder DESTINATION_BLOCKED false in
  let w := ex_world (ex_nodes false false 0) (ex_destination None (Some 9%nat) ENEMIES) in
  let w' := snd (bypassBattle ns pf ex_source w) in
  records_links_only pf /\
  fst (bypassBattle ns pf ex_source w) = true /\
  node (info (destination w')) = 2%nat /\
  armyLoss (nodes w' 2%nat) = 300 /\
  danger (nodes w' 2%nat) = 400 /\
  specialAction (nodes w' 2%nat) = Some (BattleAction gate).
Proof.
  cbv zeta. split; [apply ex_link_records_links_only |]. split; [reflexivity |].
  assert (Hrun :
    bypassBattle (ex_storage true false false (Some 2%nat) 400 300)
                 (ex_pathfinder DESTINATION_BLOCKED false) ex_source
                 (ex_world (ex_nodes false false 0)
                           (ex_destination None (Some 9%nat) ENEMIES))
    = (true,
       snd (bypassBattle (ex_storage true false false (Some 2%nat) 400 300)
                         (ex_pathfinder DESTINATION_BLOCKED false) ex_source
                         (ex_world (ex_nodes false false 0)
                                   (ex_destination None (Some 9%nat) ENEMIES)))))
    by (vm_compute; reflexivity).
  destruct (bypassBattle_success_updates_battle_node _ _ _ _ _
              (ex_link_records_links_only _ _) Hrun)
    as (st1 & bn & Hnode & Hdst & Hloss & Hdanger & _ & Haction).
  injection Hnode as <- <-.
  split; [exact Hdst |]. split; [exact Hloss |]. split; [exact Hdanger | exact Haction].
Defined.

(** The source's node carries a loss of 1500 against an army worth 1000:
    the remaining value wraps to 2^64 - 500 and the estimated loss 300
    passes the test. *)
Lemma remaining_army_value_wraps_witness :
  let ns := ex_storage true false false (Some 2%nat) 400 300 in
  let pf := ex_pathfinder DESTINATION_BLOCKED false in
  let w := ex_world (ex_nodes false false 1500)
                    (ex_destination None (Some 9%nat) ENEMIES) in
  battleNodeOf ns w = (nodes w, Some 2%nat) /\
  locked (nodes w 2%nat) = false /\
  0 <= 1000 < 1500 /\ 1500 < 2 ^ 64 /\
  actualArmyValue ns (nodes w) ex_source = 18446744073709551116 /\
  fst (bypassBattle ns pf ex_source w) = true.
Proof.
  cbv zeta. split; [reflexivity |]. split; [reflexivity |].
  split; [lia |]. split; [lia |].
  pose proof (remaining_army_value_wraps
                (ex_storage true false false (Some 2%nat) 400 300)
                (ex_pathfinder DESTINATION_BLOCKED false) ex_source
                (ex_world (ex_nodes false false 1500)
                          (ex_destination None (Some 9%nat) ENEMIES))
                _ 2%nat eq_refl eq_refl) as H.
  cbv zeta in H. destruct H as [_ H].
  destruct (H ltac:(cbn; lia) ltac:(cbn; lia)) as [Hwrap Hiff].
  split; [exact Hwrap |]. apply Hiff. reflexivity.
Defined.

Lemma locked_battle_node_blocks_witness :
  let cb := ex_cb 0 MISSION_NONE [] [] in
  let ns := ex_storage true false false (Some 2%nat) 400 300 in
  let pf := ex_pathfinder DESTINATION_BLOCKED false in
  let w := ex_world (ex_nodes false true 0) (ex_destination None (Some 9%nat) ENEMIES) in
  let w' := snd (process cb ns pf ex_source w) in
  battleNodeOf ns w = (nodes w, Some 2%nat) /\
  locked (nodes w 2%nat) = true /\
  blocked (destination w') = true /\
  locked (nodes w' 1%nat) = true /\
  trace w' = [CallIsMovementIneficient; CallGetBlockingReason;
              CallGetGuardingCreatures gate;
              CallBypassBlocker; CallBypassBattle; CallGetOrCreateNode].
Proof.
  cbv zeta. split; [reflexivity |]. split; [reflexivity |].
  pose proof (locked_battle_node_blocks
                (ex_cb 0 MISSION_NONE [] [])
                (ex_storage true false false (Some 2%nat) 400 300)
                (ex_pathfinder DESTINATION_BLOCKED false) ex_source
                (ex_world (ex_nodes false true 0)
                          (ex_destination None (Some 9%nat) ENEMIES))
                _ 2%nat eq_refl eq_refl eq_refl eq_refl eq_refl) as H.
  cbv zeta in H. destruct H as (_ & Hb & Hl & Ht).
  split; [exact Hb |]. split; [exact Hl | exact Ht].
Defined.

(** ** Guard bypass *)

Lemma contains_In (v : list ObjPtr) (p : ObjPtr) : contains v p = true <-> In p v.
Proof.
  unfold contains. rewrite existsb_exists. split.
  - intros (q & Hq & Heq). apply Nat.eqb_eq in Heq. now subst.
  - intros Hin. exists p. split; [exact Hin | apply Nat.eqb_refl].
Qed.

Lemma erase_if_contains_In (src dst : list ObjPtr) (g : ObjPtr) :
  In g (erase_if (contains src) dst) <-> In g dst /\ ~ In g src.
Proof.
  unfold erase_if. rewrite filter_In, negb_true_iff, <- not_true_iff_false, contains_In.
  reflexivity.
Qed.

Lemma empty_nil {A} (v : list A) : empty v = true <-> v = [].
Proof. destruct v; cbn; split; intros H; try reflexivity; discriminate. Qed.

Section Guards.

Variable cb : Callback.
Variable nodeStorage : AINodeStorage.
Variable pathfinder : Pathfinder.

(** C5. [bypassDestinationGuards] fails when the destination has no
    guardian. Otherwise the guardians left are those of the destination
    that are not at the source too; when none is left, the source has a
    guardian and the actor of the source's node may fight, the bypass
    succeeds at once, the recorded calls ending with the guardian query
    (no battle bypass ran and no node changed); in every other case the
    outcome is that of [bypassBattle]. *)
Theorem bypassDestinationGuards_outcome :
  forall (destGuardians : list ObjPtr) (source : PathNodeInfo) (w : World),
    let srcGuardians := getGuardingCreatures cb (coord source) in
    let remaining := erase_if (contains srcGuardians) destGuardians in
    let canFight := allowBattle (actors nodeStorage (actor (nodes w (node source)))) in
    let w1 := mk_World (nodes w) (destination w)
                (trace w ++ [CallBypassDestinationGuards;
                             CallGetGuardingCreatures (coord source)]) in
    let run := bypassDestinationGuards cb nodeStorage pathfinder destGuardians source w in
    (forall g, In g remaining <-> In g destGuardians /\ ~ In g srcGuardians) /\
    (destGuardians = [] -> run = (false, w1)) /\
    (destGuardians <> [] -> remaining = [] -> srcGuardians <> [] -> canFight = true ->
       run = (true, w1)) /\
    (destGuardians <> [] ->
     ~ (remaining = [] /\ srcGuardians <> [] /\ canFight = true) ->
       run = bypassBattle nodeStorage pathfinder source w1).
Proof.
  intros destGuardians source w. cbv zeta.
  split; [intros g; apply erase_if_contains_In |].
  unfold bypassDestinationGuards. run_prims. rewrite <- !app_assoc. cbn [app].
  split; [| split].
  - intros ->. reflexivity.
  - intros Hdst Hrem Hsrc Hfight.
    destruct destGuardians as [|g gs]; [contradiction |]. cbn [empty].
    run_prims. rewrite Hrem, Hfight.
    destruct (getGuardingCreatures cb (coord source)); [contradiction | reflexivity].
  - intros Hdst Hnot.
    destruct destGuardians as [|g gs]; [contradiction |]. cbn [empty].
    run_prims.
    match goal with
    | |- (if ?c then _ else _) _ = _ => destruct c eqn:Hc; [| reflexivity]
    end.
    exfalso. apply Hnot.
    apply andb_true_iff in Hc as [Hc Hfight].
    apply andb_true_iff in Hc as [Hrem Hsrc].
    apply empty_nil in Hrem. apply negb_true_iff in Hsrc.
    repeat split; auto.
    intros Hnil. rewrite Hnil in Hsrc. discriminate.
Qed.

End Guards.

(** Guard subtraction: the destination is guarded by 7, which also guards
    the source, and the actor may fight. *)
Lemma bypassDestinationGuards_witness :
  let cb := ex_cb 0 MISSION_NONE [7%nat] [7%nat] in
  let ns := ex_storage true false false (Some 2%nat) 400 300 in
  let pf := ex_pathfinder DESTINATION_GUARDED false in
  let w := ex_world (ex_nodes false false 0) (ex_destination None None ALLIES) in
  erase_if (contains (getGuardingCreatures cb (coord ex_source))) [7%nat] = [] /\
  bypassDestinationGuards cb ns pf [7%nat] ex_source w =
  (true, mk_World (nodes w) (destination w)
                  [CallBypassDestinationGuards; CallGetGuardingCreatures origin]).
Proof.
  cbv zeta. split; [reflexivity |].
  pose proof (bypassDestinationGuards_outcome
                (ex_cb 0 MISSION_NONE [7%nat] [7%nat])
                (ex_storage true false false (Some 2%nat) 400 300)
                (ex_pathfinder DESTINATION_GUARDED false) [7%nat] ex_source
                (ex_world (ex_nodes false false 0) (ex_destination None None ALLIES)))
    as H.
  cbv zeta in H. destruct H as (_ & _ & H & _).
  apply H; [discriminate | reflexivity | discriminate | reflexivity].
Defined.

(** ** Further properties of the rule *)

Section Strategies.

Variable cb : Callback.
Variable nodeStorage : AINodeStorage.
Variable pathfinder : Pathfinder.

(** The outcomes of [bypassBattle], by the branch that answers. *)
Lemma bypassBattle_refused (source : PathNodeInfo) (w w' : World) :
  bypassBattle nodeStorage pathfinder source w = (false, w') ->
  destination w' = destination w /\
  nodes w' = fst (battleNodeOf nodeStorage w) /\
  (trace w' = trace w ++ [CallBypassBattle; CallGetOrCreateNode] \/
   trace w' = trace w ++ [CallBypassBattle; CallGetOrCreateNode;
                          CallEvaluateDanger; CallEvaluateArmyLoss]).
Proof.
  intros Hrun.
  destruct (battleNodeOf nodeStorage w) as [st1 [bn|]] eqn:Hnode; cbn [fst].
  - destruct (locked (st1 bn)) eqn:Hlocked.
    + rewrite (bypassBattle_locked _ _ source w st1 bn Hnode Hlocked) in Hrun.
      injection Hrun as <-. cbn [destination nodes trace]. auto.
    + destruct (estimatedLoss nodeStorage st1 source (coord (info (destination w)))
                  <? actualArmyValue nodeStorage st1 source) eqn:Hloss.
      * rewrite (bypassBattle_accepted _ _ source w st1 bn Hnode Hlocked Hloss) in Hrun.
        discriminate.
      * rewrite (bypassBattle_too_costly _ _ source w st1 bn Hnode Hlocked Hloss) in Hrun.
        injection Hrun as <-. cbn [destination nodes trace]. auto.
  - rewrite (bypassBattle_not_allocated _ _ source w st1 Hnode) in Hrun.
    injection Hrun as <-. cbn [destination nodes trace]. auto.
Qed.

Lemma bypassBattle_allowed (source : PathNodeInfo) (w w' : World) :
  bypassBattle nodeStorage pathfinder source w = (true, w') ->
  exists battleNode,
    destination w' = set_node battleNode (destination w) /\
    specialAction (nodes w' battleNode)
      = Some (BattleAction (coord (info (destination w)))).
Proof.
  intros Hrun.
  destruct (battleNodeOf nodeStorage w) as [st1 [bn|]] eqn:Hnode.
  2: { rewrite (bypassBattle_not_allocated _ _ source w st1 Hnode) in Hrun.
       discriminate. }
  destruct (locked (st1 bn)) eqn:Hlocked.
  { rewrite (bypassBattle_locked _ _ source w st1 bn Hnode Hlocked) in Hrun.
    discriminate. }
  destruct (estimatedLoss nodeStorage st1 source (coord (info (destination w)))
              <? actualArmyValue nodeStorage st1 source) eqn:Hloss.
  2: { rewrite (bypassBattle_too_costly _ _ source w st1 bn Hnode Hlocked Hloss)
         in Hrun. discriminate. }
  rewrite (bypassBattle_accepted _ _ source w st1 bn Hnode Hlocked Hloss) in Hrun.
  cbv zeta in Hrun. injection Hrun as <-. exists bn. cbn [destination nodes].
  split; [reflexivity |]. now rewrite store_set_eq.
Qed.

Lemma bypassBattle_kept_or_redirected (source : PathNodeInfo) (w : World) :
  kept_or_redirected w (snd (bypassBattle nodeStorage pathfinder source w))
                     (fst (bypassBattle nodeStorage pathfinder source w)).
Proof.
  destruct (bypassBattle nodeStorage pathfinder source w) as [[|] w'] eqn:Hrun;
    cbn [fst snd].
  - right. split; [reflexivity |]. exact (bypassBattle_allowed source w w' Hrun).
  - left. now destruct (bypassBattle_refused source w w' Hrun).
Qed.

(** X1. A battle bypass that fails has no effect beyond the node request:
    the destination record is the one it was given, the storage is exactly
    what [getOrCreateNode] left (no loss, danger or special action was
    written) and nothing was committed. *)
Theorem bypassBattle_failure_is_silent :
  forall (source : PathNodeInfo) (w w' : World),
    bypassBattle nodeStorage pathfinder source w = (false, w') ->
    destination w' = destination w /\
    nodes w' = fst (battleNodeOf nodeStorage w) /\
    ~ In CallCommit (skipn (length (trace w)) (trace w')).
Proof.
  intros source w w' Hrun.
  assert (Hskip : forall l l' : list Event, skipn (length l) (l ++ l') = l').
  { intros l l'. induction l; [reflexivity | exact IHl]. }
  destruct (bypassBattle_refused source w w' Hrun) as (Hd & Hn & [Ht | Ht]);
    rewrite Ht, Hskip; repeat split; auto; cbn; intuition discriminate.
Qed.

(** X2. At a quest guard with a mission, a border guard or a border gate
    the bypass is always allowed. The quest interaction (quest, object,
    destination coordinate) is attached to the destination's node exactly
    when the helper's hero has not visited the object or does not pass its
    quest; otherwise no node is written. *)
Theorem quest_gate_defers_the_interaction :
  forall (object : ObjPtr) (source : PathNodeInfo) (w : World),
    is_quest_gate (ID cb object) = true ->
    (ID cb object = Obj.QUEST_GUARD ->
     missionType cb (questOf cb object) <> MISSION_NONE) ->
    let hero' := helperHero pathfinder in
    let pending := negb (wasVisited cb object (tempOwner cb hero'))
                   || negb (checkQuest cb object hero') in
    let r := bypassRemovableObject cb nodeStorage pathfinder object source w in
    let p := node (info (destination w)) in
    fst r = true /\
    destination (snd r) = destination w /\
    (pending = true ->
       specialAction (nodes (snd r) p)
         = Some (QuestAction (mk_QuestInfo (questOf cb object) object
                                           (coord (info (destination w))))) /\
       forall q, q <> p -> nodes (snd r) q = nodes w q) /\
    (pending = false -> nodes (snd r) = nodes w).
Proof.
  intros object source w Hgate Hmission. cbv zeta.
  unfold bypassRemovableObject. run_prims. rewrite Hgate.
  assert (Hguard : (ID cb object =? Obj.QUEST_GUARD)
                   && is_MISSION_NONE (missionType cb (questOf cb object)) = false).
  { destruct (ID cb object =? Obj.QUEST_GUARD) eqn:Hid; [| reflexivity].
    apply Z.eqb_eq in Hid. specialize (Hmission Hid).
    destruct (missionType cb (questOf cb object)); try reflexivity. contradiction. }
  rewrite Hguard.
  destruct (negb (wasVisited cb object (tempOwner cb (helperHero pathfinder)))
            || negb (checkQuest cb object (helperHero pathfinder))) eqn:Hpending;
    run_prims; repeat split; try discriminate; try reflexivity.
  - now rewrite store_set_eq.
  - intros q Hq. now apply store_set_neq.
Qed.

(** X3. At any other object the bypass never writes: the world is the one
    it was given (but for the record of the call), and the answer is
    true when an enemy hero stands on the destination or the object is
    removable, else whether the node's hero is the destination's hero. *)
Theorem plain_object_bypass_is_pure :
  forall (object : ObjPtr) (source : PathNodeInfo) (w : World),
    is_quest_gate (ID cb object) = false ->
    let dst := info (destination w) in
    let enemyHero := not_null (nodeHero dst) && is_ENEMIES (heroRelations dst) in
    bypassRemovableObject cb nodeStorage pathfinder object source w =
    (enemyHero || isObjectRemovable pathfinder object
       || hero_eqb (getHero nodeStorage (nodes w) (node dst)) (nodeHero dst),
     mk_World (nodes w) (destination w) (trace w ++ [CallBypassRemovableObject])).
Proof.
  intros object source w Hgate. cbv zeta.
  unfold bypassRemovableObject. run_prims. rewrite Hgate.
  destruct (not_null (nodeHero (info (destination w)))
            && is_ENEMIES (heroRelations (info (destination w)))); cbn [negb andb orb];
    [reflexivity |].
  destruct (isObjectRemovable pathfinder object); cbn [negb orb]; [reflexivity |].
  run_prims.
  destruct (hero_eqb _ _); reflexivity.
Qed.

Lemma bypassRemovableObject_destination (object : ObjPtr) (source : PathNodeInfo)
    (w : World) :
  destination (snd (bypassRemovableObject cb nodeStorage pathfinder object source w))
  = destination w.
Proof.
  unfold bypassRemovableObject. run_prims.
  repeat match goal with
         | |- context [if ?c then _ else _] => destruct c; run_prims
         end; reflexivity.
Qed.

(** The guard bypass, by the branch that answers. *)
Lemma bypassDestinationGuards_cases (destGuardians : list ObjPtr)
    (source : PathNodeInfo) (w : World) :
  let w1 := mk_World (nodes w) (destination w)
              (trace w ++ [CallBypassDestinationGuards;
                           CallGetGuardingCreatures (coord source)]) in
  let run := bypassDestinationGuards cb nodeStorage pathfinder destGuardians source w in
  run = (false, w1) \/ run = (true, w1) \/
  run = bypassBattle nodeStorage pathfinder source w1.
Proof.
  cbv zeta. unfold bypassDestinationGuards. run_prims. rewrite <- !app_assoc. cbn [app].
  destruct (empty destGuardians); [left; reflexivity |]. run_prims.
  match goal with
  | |- context [if ?c then _ else _] => destruct c
  end; [right; left; reflexivity | right; right; reflexivity].
Qed.

Lemma bypassDestinationGuards_kept_or_redirected (destGuardians : list ObjPtr)
    (source : PathNodeInfo) (w : World) :
  kept_or_redirected w
    (snd (bypassDestinationGuards cb nodeStorage pathfinder destGuardians source w))
    (fst (bypassDestinationGuards cb nodeStorage pathfinder destGuardians source w)).
Proof.
  destruct (bypassDestinationGuards_cases destGuardians source w) as [H | [H | H]];
    cbv zeta in H; rewrite H.
  - left. reflexivity.
  - left. reflexivity.
  - apply (bypassBattle_kept_or_redirected source
             (mk_World (nodes w) (destination w)
                (trace w ++ [CallBypassDestinationGuards;
                             CallGetGuardingCreatures (coord source)]))).
Qed.

Lemma bypassBlocker_kept_or_redirected (source : PathNodeInfo) (w : World) :
  kept_or_redirected w
    (snd (bypassBlocker nodeStorage pathfinder source w))
    (fst (bypassBlocker nodeStorage pathfinder source w)).
Proof.
  unfold bypassBlocker. run_prims.
  destruct (not_null (nodeHero (info (destination w)))
            && is_ENEMIES (heroRelations (info (destination w)))).
  - apply (bypassBattle_kept_or_redirected source
             (mk_World (nodes w) (destination w) (trace w ++ [CallBypassBlocker]))).
  - left. reflexivity.
Qed.

Lemma dispatch_kept_or_redirected (blocker : BlockingReason)
    (destGuardians : list ObjPtr) (source : PathNodeInfo) (w : World) :
  kept_or_redirected w
    (snd (dispatch cb nodeStorage pathfinder blocker destGuardians source w))
    (fst (dispatch cb nodeStorage pathfinder blocker destGuardians source w)).
Proof.
  destruct blocker; cbn [dispatch]; try (left; reflexivity).
  - apply bypassDestinationGuards_kept_or_redirected.
  - apply bypassBlocker_kept_or_redirected.
  - run_prims. destruct (nodeObject (info (destination w))) as [object|].
    + pose proof (bypassRemovableObject_destination object source w) as Hdst.
      destruct (bypassRemovableObject cb nodeStorage pathfinder object source w)
        as [allow wr]. cbn [snd] in Hdst.
      destruct (allow && negb (empty destGuardians)).
      * pose proof (bypassDestinationGuards_kept_or_redirected destGuardians source wr)
          as Hk.
        unfold kept_or_redirected in *. rewrite Hdst in Hk. exact Hk.
      * left. exact Hdst.
    + run_prims. cbn [andb]. left. reflexivity.
Qed.

(** [process] past the classifier, in one equation for the final world. *)
Lemma process_classified_world (source : PathNodeInfo) (w : World) :
  isMovementIneficient nodeStorage (nodes w) source (destination w) = false ->
  getBlockingReason pathfinder (nodes w) source (destination w) <> NONE ->
  let run := dispatch cb nodeStorage pathfinder
               (getBlockingReason pathfinder (nodes w) source (destination w))
               (getGuardingCreatures cb (coord (info (destination w))))
               source (classified w) in
  let w' := snd (process cb nodeStorage pathfinder source w) in
  let p := node (info (destination (snd run))) in
  blocked (destination w')
    = negb (fst run)
      || isDistanceLimitReached nodeStorage (nodes (snd run)) source
                                (destination (snd run)) /\
  info (destination w') = info (destination (snd run)) /\
  nodes w' = store_set (nodes (snd run)) p (set_locked (negb (fst run)) (nodes (snd run) p)).
Proof.
  intros Hineff Hne. cbv zeta.
  rewrite (process_classified cb nodeStorage pathfinder source w Hineff Hne).
  destruct (dispatch cb nodeStorage pathfinder _ _ source (classified w))
    as [allowBypass w1]. cbn [fst snd].
  exact (verdict_world nodeStorage allowBypass source w1).
Qed.

Lemma process_unclassified (source : PathNodeInfo) (w : World) :
  isMovementIneficient nodeStorage (nodes w) source (destination w) = false ->
  getBlockingReason pathfinder (nodes w) source (destination w) = NONE ->
  process cb nodeStorage pathfinder source w =
  (tt, mk_World (nodes w) (destination w)
                (trace w ++ [CallIsMovementIneficient; CallGetBlockingReason])).
Proof.
  intros Hineff Hreason. unfold process. run_prims. rewrite Hineff. run_prims.
  rewrite Hreason. cbn [is_NONE]. run_prims. rewrite <- !app_assoc. reflexivity.
Qed.

(** X4. [process] never moves the destination: its coordinate, object,
    hero and relations are those it was called with, whatever the branch.
    The only field of the record it may redirect is the node, and a
    redirected destination names a node that carries the simulated battle
    at the destination's coordinate and is left unlocked. *)
Theorem process_redirects_only_into_battle :
  forall (source : PathNodeInfo) (w : World),
    let w' := snd (process cb nodeStorage pathfinder source w) in
    let dst := info (destination w) in
    let dst' := info (destination w') in
    coord dst' = coord dst /\
    nodeObject dst' = nodeObject dst /\
    nodeHero dst' = nodeHero dst /\
    heroRelations dst' = heroRelations dst /\
    (node dst' <> node dst ->
       specialAction (nodes w' (node dst')) = Some (BattleAction (coord dst)) /\
       locked (nodes w' (node dst')) = false).
Proof.
  intros source w. cbv zeta.
  destruct (isMovementIneficient nodeStorage (nodes w) source (destination w)) eqn:Hineff.
  { rewrite (process_inefficient cb nodeStorage pathfinder source w Hineff).
    cbn [snd destination info set_blocked]. repeat split; congruence. }
  destruct (getBlockingReason pathfinder (nodes w) source (destination w)) eqn:Hreason.
  1: { rewrite (process_unclassified source w Hineff Hreason).
       cbn [snd destination]. repeat split; congruence. }
  all:
    assert (Hne : getBlockingReason pathfinder (nodes w) source (destination w) <> NONE)
      by (rewrite Hreason; discriminate);
    destruct (process_classified_world source w Hineff Hne) as (_ & Hi & Hn);
    rewrite Hi, Hn;
    destruct (dispatch_kept_or_redirected
                (getBlockingReason pathfinder (nodes w) source (destination w))
                (getGuardingCreatures cb (coord (info (destination w))))
                source (classified w)) as [Hkept | (Hallow & bn & Hdst & Haction)];
    [ rewrite Hkept; cbn [classified destination]; repeat split; congruence
    | rewrite Hdst, Hallow; cbn [classified destination set_node info node coord
                                  nodeObject nodeHero heroRelations negb];
      rewrite store_set_eq; cbn [specialAction set_locked locked];
      repeat split; try reflexivity; exact Haction ].
Qed.

(** X5. A lock written by [process] always comes with a block: whenever
    the rule decides (the transition is inefficient, or the classifier
    gives a reason), a destination whose node ends locked ends blocked,
    so an unblocked destination is never left locked. *)
Theorem process_locked_is_blocked :
  forall (source : PathNodeInfo) (w : World),
    isMovementIneficient nodeStorage (nodes w) source (destination w) = true \/
    getBlockingReason pathfinder (nodes w) source (destination w) <> NONE ->
    let w' := snd (process cb nodeStorage pathfinder source w) in
    locked (nodes w' (node (info (destination w')))) = true ->
    blocked (destination w') = true.
Proof.
  intros source w Hdecides. cbv zeta.
  destruct (isMovementIneficient nodeStorage (nodes w) source (destination w)) eqn:Hineff.
  { rewrite (process_inefficient cb nodeStorage pathfinder source w Hineff).
    reflexivity. }
  destruct Hdecides as [H | Hne]; [discriminate |].
  destruct (process_classified_world source w Hineff Hne) as (Hb & Hi & Hn).
  rewrite Hb, Hi, Hn, store_set_eq. cbn [locked set_locked].
  intros ->. reflexivity.
Qed.

(** X6. Edges for which no strategy can succeed end blocked and locked
    without a node request or a question to the risk oracle: the two
    source-side reasons, a blockvis destination without an object, and a
    blocked destination without an enemy hero. The destination's node
    changes in its lock only and no other node changes. *)
Theorem process_without_strategy_locks :
  forall (source : PathNodeInfo) (w : World),
    let reason := getBlockingReason pathfinder (nodes w) source (destination w) in
    let dst := info (destination w) in
    isMovementIneficient nodeStorage (nodes w) source (destination w) = false ->
    reason = SOURCE_GUARDED \/ reason = SOURCE_BLOCKED \/
    (reason = DESTINATION_BLOCKVIS /\ nodeObject dst = None) \/
    (reason = DESTINATION_BLOCKED /\
     not_null (nodeHero dst) && is_ENEMIES (heroRelations dst) = false) ->
    let w' := snd (process cb nodeStorage pathfinder source w) in
    blocked (destination w') = true /\
    info (destination w') = dst /\
    nodes w' = store_set (nodes w) (node dst) (set_locked true (nodes w (node dst))) /\
    exists calls,
      trace w' = trace w ++ calls /\
      ~ In CallGetOrCreateNode calls /\ ~ In CallEvaluateDanger calls.
Proof.
  intros source w. cbv zeta. intros Hineff Hcase.
  assert (Hne : getBlockingReason pathfinder (nodes w) source (destination w) <> NONE).
  { destruct Hcase as [H | [H | [[H _] | [H _]]]]; rewrite H; discriminate. }
  rewrite (process_classified cb nodeStorage pathfinder source w Hineff Hne).
  destruct Hcase as [H | [H | [[H Hobject] | [H Henemy]]]]; rewrite H; cbn [dispatch].
  - unfold verdict, classified. run_prims. cbn [negb]. run_prims.
    repeat split. eexists. split; [reflexivity |]. cbn. intuition discriminate.
  - unfold verdict, classified. run_prims. cbn [negb]. run_prims.
    repeat split. eexists. split; [reflexivity |]. cbn. intuition discriminate.
  - unfold verdict, classified. run_prims. rewrite Hobject. run_prims.
    cbn [andb negb]. run_prims.
    repeat split. eexists. split; [reflexivity |]. cbn. intuition discriminate.
  - unfold verdict, bypassBlocker, classified. run_prims. rewrite Henemy. run_prims.
    cbn [negb]. run_prims.
    repeat split. eexists. split; [rewrite <- app_assoc; reflexivity |].
    cbn. intuition discriminate.
Qed.

(** X7. A destination the classifier marks as a plain visit is always
    allowed: its node ends unlocked, nothing else in the storage changes,
    and the destination is blocked exactly when the distance limit is
    reached, which leaves it open to a later, cheaper arrival. *)
Theorem process_visit_is_allowed :
  forall (source : PathNodeInfo) (w : World),
    isMovementIneficient nodeStorage (nodes w) source (destination w) = false ->
    getBlockingReason pathfinder (nodes w) source (destination w) = DESTINATION_VISIT ->
    let w' := snd (process cb nodeStorage pathfinder source w) in
    let dst := info (destination w) in
    blocked (destination w')
      = isDistanceLimitReached nodeStorage (nodes w) source (destination w) /\
    info (destination w') = dst /\
    nodes w' = store_set (nodes w) (node dst) (set_locked false (nodes w (node dst))).
Proof.
  intros source w Hineff Hreason. cbv zeta.
  assert (Hne : getBlockingReason pathfinder (nodes w) source (destination w) <> NONE)
    by (rewrite Hreason; discriminate).
  destruct (process_classified_world source w Hineff Hne) as (Hb & Hi & Hn).
  rewrite Hb, Hi, Hn, Hreason. cbn [dispatch]. unfold ret. cbn [fst snd negb orb].
  repeat split.
Qed.

(** X8. The guard bypass takes its shortcut exactly when every guardian of
    the destination also guards the source and the actor of the source's
    node may fight; that the source has a guardian need not be asked, it
    follows. In all other cases with a guarded destination the battle
    bypass decides. *)
Theorem guards_shared_with_source_are_not_fought :
  forall (destGuardians : list ObjPtr) (source : PathNodeInfo) (w : World),
    destGuardians <> [] ->
    let srcGuardians := getGuardingCreatures cb (coord source) in
    let canFight := allowBattle (actors nodeStorage (actor (nodes w (node source)))) in
    let w1 := mk_World (nodes w) (destination w)
                (trace w ++ [CallBypassDestinationGuards;
                             CallGetGuardingCreatures (coord source)]) in
    let run := bypassDestinationGuards cb nodeStorage pathfinder destGuardians source w in
    ((forall g, In g destGuardians -> In g srcGuardians) /\ canFight = true ->
       run = (true, w1)) /\
    (~ ((forall g, In g destGuardians -> In g srcGuardians) /\ canFight = true) ->
       run = bypassBattle nodeStorage pathfinder source w1).
Proof.
  intros destGuardians source w Hdst. cbv zeta.
  assert (Hrest : erase_if (contains (getGuardingCreatures cb (coord source)))
                           destGuardians = [] <->
                  forall g, In g destGuardians ->
                            In g (getGuardingCreatures cb (coord source))).
  { split.
    - intros Hnil g Hg.
      destruct (contains (getGuardingCreatures cb (coord source)) g) eqn:Hc.
      + now apply contains_In.
      + exfalso. assert (Hin : In g (erase_if (contains (getGuardingCreatures cb
                                                 (coord source))) destGuardians)).
        { apply erase_if_contains_In. split; [exact Hg |].
          intros Hsrc. apply contains_In in Hsrc. congruence. }
        rewrite Hnil in Hin. exact Hin.
    - intros Hall.
      destruct (erase_if (contains (getGuardingCreatures cb (coord source)))
                         destGuardians) as [|g rest] eqn:He; [reflexivity |].
      exfalso. assert (Hin : In g (g :: rest)) by (left; reflexivity).
      rewrite <- He in Hin. apply erase_if_contains_In in Hin as [Hg Hnot].
      exact (Hnot (Hall g Hg)). }
  unfold bypassDestinationGuards. run_prims. rewrite <- !app_assoc. cbn [app].
  destruct destGuardians as [|g0 gs]; [contradiction |]. cbn [empty]. run_prims.
  split.
  - intros [Hall Hfight]. rewrite (proj2 Hrest Hall), Hfight. cbn [empty andb].
    destruct (getGuardingCreatures cb (coord source)) as [|s ss] eqn:Hsrc.
    + exfalso. exact (Hall g0 (or_introl eq_refl)).
    + reflexivity.
  - intros Hnot.
    match goal with
    | |- (if ?c then _ else _) _ = _ => destruct c eqn:Hc; [| reflexivity]
    end.
    exfalso. apply Hnot.
    apply andb_true_iff in Hc as [Hc Hfight].
    apply andb_true_iff in Hc as [Hempty _].
    apply empty_nil in Hempty. split; [exact (proj1 Hrest Hempty) | exact Hfight].
Qed.

(** X9. What the threshold buys: when the loss accumulated on the source's
    node does not exceed the actor's army value (no wrap-around), a battle
    bypass is accepted only if the accumulated loss plus the estimated
    loss stays strictly below the army value. *)
Theorem accepted_battle_leaves_an_army :
  forall (source : PathNodeInfo) (w w' : World),
    bypassBattle nodeStorage pathfinder source w = (true, w') ->
    let st1 := fst (battleNodeOf nodeStorage w) in
    let army := armyValue (actors nodeStorage (actor (st1 (node source)))) in
    let lost := armyLoss (st1 (node source)) in
    0 <= lost <= army -> army < 2 ^ 64 ->
    lost + estimatedLoss nodeStorage st1 source (coord (info (destination w))) < army.
Proof.
  intros source w w' Hrun. cbv zeta. intros Hlost Harmy.
  assert (Htrue : fst (bypassBattle nodeStorage pathfinder source w) = true)
    by (rewrite Hrun; reflexivity).
  apply bypassBattle_true_iff in Htrue. cbv zeta in Htrue. destruct Htrue as [_ Hlt].
  unfold actualArmyValue, u64 in Hlt. cbv zeta in Hlt.
  rewrite Z.mod_small in Hlt by lia. lia.
Qed.

End Strategies.

(** Runs of the further properties, on the map of the examples. *)

Lemma bypassBattle_failure_witness :
  let ns := ex_storage true false false (Some 2%nat) 400 1000 in
  let pf := ex_pathfinder DESTINATION_BLOCKED false in
  let w := ex_world (ex_nodes false false 0) (ex_destination None (Some 9%nat) ENEMIES) in
  let w' := snd (bypassBattle ns pf ex_source w) in
  fst (bypassBattle ns pf ex_source w) = false /\
  destination w' = destination w /\ nodes w' = nodes w.
Proof.
  cbv zeta. split; [reflexivity |].
  assert (Hrun :
    bypassBattle (ex_storage true false false (Some 2%nat) 400 1000)
                 (ex_pathfinder DESTINATION_BLOCKED false) ex_source
                 (ex_world (ex_nodes false false 0)
                           (ex_destination None (Some 9%nat) ENEMIES))
    = (false,
       snd (bypassBattle (ex_storage true false false (Some 2%nat) 400 1000)
                         (ex_pathfinder DESTINATION_BLOCKED false) ex_source
                         (ex_world (ex_nodes false false 0)
                                   (ex_destination None (Some 9%nat) ENEMIES)))))
    by (vm_compute; reflexivity).
  destruct (bypassBattle_failure_is_silent _ _ _ _ _ Hrun) as (Hd & Hn & _).
  split; [exact Hd | exact Hn].
Defined.

Lemma quest_gate_witness :
  let cb := ex_cb Obj.BORDERGUARD MISSION_KEYMASTER [] [] in
  let ns := ex_storage true false false None 400 300 in
  let pf := ex_pathfinder DESTINATION_BLOCKVIS false in
  let w := ex_world (ex_nodes false false 0) (ex_destination (Some 5%nat) None ALLIES) in
  let r := bypassRemovableObject cb ns pf 5%nat ex_source w in
  is_quest_gate (ID cb 5%nat) = true /\
  fst r = true /\
  specialAction (nodes (snd r) 1%nat)
    = Some (QuestAction (mk_QuestInfo 5%nat 5%nat gate)).
Proof.
  cbv zeta. split; [reflexivity |].
  pose proof (quest_gate_defers_the_interaction
                (ex_cb Obj.BORDERGUARD MISSION_KEYMASTER [] [])
                (ex_storage true false false None 400 300)
                (ex_pathfinder DESTINATION_BLOCKVIS false) 5%nat ex_source
                (ex_world (ex_nodes false false 0)
                          (ex_destination (Some 5%nat) None ALLIES))
                eq_refl ltac:(discriminate)) as H.
  cbv zeta in H. destruct H as (Hr & _ & Hpending & _).
  split; [exact Hr |]. exact (proj1 (Hpending eq_refl)).
Defined.

Lemma plain_object_bypass_witness :
  let cb := ex_cb 53 MISSION_NONE [] [] in
  let ns := ex_storage true false false None 400 300 in
  let pf := ex_pathfinder DESTINATION_BLOCKVIS true in
  let w := ex_world (ex_nodes false false 0) (ex_destination (Some 5%nat) None ALLIES) in
  is_quest_gate (ID cb 5%nat) = false /\
  bypassRemovableObject cb ns pf 5%nat ex_source w
  = (true, mk_World (nodes w) (destination w) [CallBypassRemovableObject]).
Proof.
  cbv zeta. split; [reflexivity |].
  exact (plain_object_bypass_is_pure
           (ex_cb 53 MISSION_NONE [] [])
           (ex_storage true false false None 400 300)
           (ex_pathfinder DESTINATION_BLOCKVIS true) 5%nat ex_source
           (ex_world (ex_nodes false false 0) (ex_destination (Some 5%nat) None ALLIES))
           eq_refl).
Defined.

Lemma process_redirect_witness :
  let cb := ex_cb 0 MISSION_NONE [] [] in
  let ns := ex_storage true false false (Some 2%nat) 400 300 in
  let pf := ex_pathfinder DESTINATION_BLOCKED false in
  let w := ex_world (ex_nodes false false 0) (ex_destination None (Some 9%nat) ENEMIES) in
  let w' := snd (process cb ns pf ex_source w) in
  node (info (destination w')) = 2%nat /\
  coord (info (destination w')) = gate /\
  specialAction (nodes w' 2%nat) = Some (BattleAction gate) /\
  locked (nodes w' 2%nat) = false.
Proof.
  cbv zeta. split; [vm_compute; reflexivity |].
  pose proof (process_redirects_only_into_battle
                (ex_cb 0 MISSION_NONE [] [])
                (ex_storage true false false (Some 2%nat) 400 300)
                (ex_pathfinder DESTINATION_BLOCKED false) ex_source
                (ex_world (ex_nodes false false 0)
                          (ex_destination None (Some 9%nat) ENEMIES))) as H.
  cbv zeta in H. destruct H as (Hc & _ & _ & _ & Hredirect).
  split; [exact Hc |].
  assert (Hnode :
    node (info (destination
      (snd (process (ex_cb 0 MISSION_NONE [] [])
                    (ex_storage true false false (Some 2%nat) 400 300)
                    (ex_pathfinder DESTINATION_BLOCKED false) ex_source
                    (ex_world (ex_nodes false false 0)
                              (ex_destination None (Some 9%nat) ENEMIES))))))
    = 2%nat) by (vm_compute; reflexivity).
  rewrite Hnode in Hredirect. apply Hredirect. cbn. discriminate.
Defined.

Lemma process_locked_is_blocked_witness :
  let cb := ex_cb 0 MISSION_NONE [] [] in
  let ns := ex_storage true false false None 400 300 in
  let pf := ex_pathfinder SOURCE_GUARDED false in
  let w := ex_world (ex_nodes false false 0) (ex_destination None None ALLIES) in
  let w' := snd (process cb ns pf ex_source w) in
  locked (nodes w' (node (info (destination w')))) = true /\
  blocked (destination w') = true.
Proof.
  cbv zeta. split; [reflexivity |].
  apply (process_locked_is_blocked
           (ex_cb 0 MISSION_NONE [] [])
           (ex_storage true false false None 400 300)
           (ex_pathfinder SOURCE_GUARDED false) ex_source
           (ex_world (ex_nodes false false 0) (ex_destination None None ALLIES))).
  - right. cbn. discriminate.
  - reflexivity.
Defined.

Lemma process_without_strategy_witness :
  let cb := ex_cb 0 MISSION_NONE [] [] in
  let ns := ex_storage true false false (Some 2%nat) 400 300 in
  let pf := ex_pathfinder DESTINATION_BLOCKVIS false in
  let w := ex_world (ex_nodes false false 0) (ex_destination None None ALLIES) in
  let w' := snd (process cb ns pf ex_source w) in
  nodeObject (info (destination w)) = None /\
  blocked (destination w') = true /\
  locked (nodes w' 1%nat) = true.
Proof.
  cbv zeta. split; [reflexivity |].
  pose proof (process_without_strategy_locks
                (ex_cb 0 MISSION_NONE [] [])
                (ex_storage true false false (Some 2%nat) 400 300)
                (ex_pathfinder DESTINATION_BLOCKVIS false) ex_source
                (ex_world (ex_nodes false false 0) (ex_destination None None ALLIES))
                eq_refl (or_intror (or_intror (or_introl (conj eq_refl eq_refl)))))
    as H.
  cbv zeta in H. destruct H as (Hb & _ & Hn & _).
  split; [exact Hb |]. rewrite Hn. reflexivity.
Defined.

Lemma process_visit_witness :
  let cb := ex_cb 0 MISSION_NONE [] [] in
  let ns := ex_storage true false true None 400 300 in
  let pf := ex_pathfinder DESTINATION_VISIT false in
  let w := ex_world (ex_nodes true false 0) (ex_destination None None ALLIES) in
  let w' := snd (process cb ns pf ex_source w) in
  blocked (destination w') = true /\ locked (nodes w' 1%nat) = false.
Proof.
  cbv zeta.
  pose proof (process_visit_is_allowed
                (ex_cb 0 MISSION_NONE [] [])
                (ex_storage true false true None 400 300)
                (ex_pathfinder DESTINATION_VISIT false) ex_source
                (ex_world (ex_nodes true false 0) (ex_destination None None ALLIES))
                eq_refl eq_refl) as H.
  cbv zeta in H. destruct H as (Hb & _ & Hn).
  split; [exact Hb |]. rewrite Hn. reflexivity.
Defined.

Lemma guards_shared_witness :
  let cb := ex_cb 0 MISSION_NONE [7%nat; 8%nat] [8%nat; 7%nat; 8%nat] in
  let ns := ex_storage true false false (Some 2%nat) 400 300 in
  let pf := ex_pathfinder DESTINATION_GUARDED false in
  let w := ex_world (ex_nodes false false 0) (ex_destination None None ALLIES) in
  bypassDestinationGuards cb ns pf [8%nat; 7%nat; 8%nat] ex_source w
  = (true, mk_World (nodes w) (destination w)
                    [CallBypassDestinationGuards; CallGetGuardingCreatures origin]).
Proof.
  cbv zeta.
  pose proof (guards_shared_with_source_are_not_fought
                (ex_cb 0 MISSION_NONE [7%nat; 8%nat] [8%nat; 7%nat; 8%nat])
                (ex_storage true false false (Some 2%nat) 400 300)
                (ex_pathfinder DESTINATION_GUARDED false)
                [8%nat; 7%nat; 8%nat] ex_source
                (ex_world (ex_nodes false false 0) (ex_destination None None ALLIES))
                ltac:(discriminate)) as H.
  cbv zeta in H. destruct H as [H _]. apply H. split; [| reflexivity].
  intros g Hg. cbn in Hg |- *. intuition.
Defined.

Lemma accepted_battle_witness :
  let ns := ex_storage true false false (Some 2%nat) 400 300 in
  let pf := ex_pathfinder DESTINATION_BLOCKED false in
  let w := ex_world (ex_nodes false false 600)
                    (ex_destination None (Some 9%nat) ENEMIES) in
  fst (bypassBattle ns pf ex_source w) = true /\
  600 + estimatedLoss ns (nodes w) ex_source gate < 1000.
Proof.
  cbv zeta. split; [vm_compute; reflexivity |].
  assert (Hrun :
    bypassBattle (ex_storage true false false (Some 2%nat) 400 300)
                 (ex_pathfinder DESTINATION_BLOCKED false) ex_source
                 (ex_world (ex_nodes false false 600)
                           (ex_destination None (Some 9%nat) ENEMIES))
    = (true,
       snd (bypassBattle (ex_storage true false false (Some 2%nat) 400 300)
                         (ex_pathfinder DESTINATION_BLOCKED false) ex_source
                         (ex_world (ex_nodes false false 600)
                                   (ex_destination None (Some 9%nat) ENEMIES)))))
    by (vm_compute; reflexivity).
  pose proof (accepted_battle_leaves_an_army _ _ _ _ _ Hrun) as H.
  cbv zeta in H. apply H; cbn; lia.
Defined.

(** ** The lock across a search pass *)

Lemma locked_store_set (st : NodeStore) (q p : NodePtr) (n : AIPathNode) :
  locked n = locked (st q) -> locked (store_set st q n p) = locked (st p).
Proof.
  intros Hn. unfold store_set.
  destruct (Nat.eqb p q) eqn:E; [| reflexivity].
  apply Nat.eqb_eq in E. now subst p.
Qed.

Lemma locks_respected_refl (w0 w1 : World) :
  nodes w1 = nodes w0 -> destination w1 = destination w0 -> locks_respected w0 w1.
Proof. intros Hn Hd. split; [intros p; now rewrite Hn | left; exact Hd]. Qed.

Lemma ex_keep_locks (canFight inefficient limit : bool) (battleNode : option NodePtr)
    (dangerV lossV : Z) (b : BlockingReason) (r : bool) :
  keep_locks (ex_storage canFight inefficient limit battleNode dangerV lossV)
             (ex_pathfinder b r).
Proof.
  repeat split; cbn.
  - auto.
  - intros st d s p Hp. unfold ex_commit.
    rewrite locked_store_set; [exact Hp | reflexivity].
  - intros st s d p Hp. unfold ex_link.
    rewrite locked_store_set; [exact Hp | reflexivity].
Qed.

Section Lock.

Variable cb : Callback.
Variable nodeStorage : AINodeStorage.
Variable pathfinder : Pathfinder.

Hypothesis Hkeep : keep_locks nodeStorage pathfinder.

Lemma bypassBattle_respects_locks (source : PathNodeInfo) (w : World) :
  locks_respected w (snd (bypassBattle nodeStorage pathfinder source w)).
Proof.
  destruct Hkeep as (Hcreate & Hcommit & Hlink).
  assert (Hst1 : forall p, locked (nodes w p) = true ->
                           locked (fst (battleNodeOf nodeStorage w) p) = true).
  { intros p Hp. unfold battleNodeOf. cbv zeta. now apply Hcreate. }
  destruct (battleNodeOf nodeStorage w) as [st1 [bn|]] eqn:Hnode; cbn [fst] in Hst1.
  2: { rewrite (bypassBattle_not_allocated _ _ source w st1 Hnode). cbn [snd].
       split; [exact Hst1 | left; reflexivity]. }
  destruct (locked (st1 bn)) eqn:Hlocked.
  { rewrite (bypassBattle_locked _ _ source w st1 bn Hnode Hlocked). cbn [snd].
    split; [exact Hst1 | left; reflexivity]. }
  destruct (estimatedLoss nodeStorage st1 source (coord (info (destination w)))
              <? actualArmyValue nodeStorage st1 source) eqn:Hloss.
  2: { rewrite (bypassBattle_too_costly _ _ source w st1 bn Hnode Hlocked Hloss).
       cbn [snd]. split; [exact Hst1 | left; reflexivity]. }
  rewrite (bypassBattle_accepted _ _ source w st1 bn Hnode Hlocked Hloss).
  cbv zeta. cbn [snd nodes destination]. split.
  - intros p Hp. cbn [nodes].
    rewrite locked_store_set by reflexivity.
    apply Hlink.
    rewrite locked_store_set by reflexivity.
    rewrite locked_store_set by reflexivity.
    apply Hcommit, Hst1, Hp.
  - right. cbn [destination set_node info node].
    destruct (locked (nodes w bn)) eqn:Hbefore; [| reflexivity].
    rewrite (Hst1 bn Hbefore) in Hlocked. discriminate.
Qed.

Lemma bypassRemovableObject_locks (object : ObjPtr) (source : PathNodeInfo)
    (w : World) (p : NodePtr) :
  locked (nodes (snd (bypassRemovableObject cb nodeStorage pathfinder object source w)) p)
  = locked (nodes w p).
Proof.
  unfold bypassRemovableObject. run_prims.
  repeat match goal with
         | |- context [if ?c then _ else _] => destruct c; run_prims
         end;
    try reflexivity.
  apply locked_store_set. reflexivity.
Qed.

Lemma dispatch_respects_locks (blocker : BlockingReason) (destGuardians : list ObjPtr)
    (source : PathNodeInfo) (w : World) :
  locks_respected w
    (snd (dispatch cb nodeStorage pathfinder blocker destGuardians source w)).
Proof.
  assert (Hguards : forall g w0,
    locks_respected w0
      (snd (bypassDestinationGuards cb nodeStorage pathfinder g source w0))).
  { intros g w0.
    destruct (bypassDestinationGuards_cases cb nodeStorage pathfinder g source w0)
      as [H | [H | H]]; cbv zeta in H; rewrite H.
    - now apply locks_respected_refl.
    - now apply locks_respected_refl.
    - apply (bypassBattle_respects_locks source
               (mk_World (nodes w0) (destination w0)
                  (trace w0 ++ [CallBypassDestinationGuards;
                                CallGetGuardingCreatures (coord source)]))). }
  destruct blocker; cbn [dispatch]; try (now apply locks_respected_refl).
  - apply Hguards.
  - unfold bypassBlocker. run_prims.
    destruct (not_null (nodeHero (info (destination w)))
              && is_ENEMIES (heroRelations (info (destination w)))).
    + apply (bypassBattle_respects_locks source
               (mk_World (nodes w) (destination w) (trace w ++ [CallBypassBlocker]))).
    + now apply locks_respected_refl.
  - run_prims. destruct (nodeObject (info (destination w))) as [object|].
    + pose proof (bypassRemovableObject_destination cb nodeStorage pathfinder
                    object source w) as Hdst.
      pose proof (bypassRemovableObject_locks object source w) as Hlocks.
      destruct (bypassRemovableObject cb nodeStorage pathfinder object source w)
        as [allow wr]. cbn [snd] in Hdst, Hlocks.
      destruct (allow && negb (empty destGuardians)).
      * destruct (Hguards destGuardians wr) as [Hmono Hredirect].
        split.
        -- intros p Hp. apply Hmono. now rewrite Hlocks.
        -- destruct Hredirect as [Hsame | Hfree].
           ++ left. now rewrite Hsame.
           ++ right. now rewrite <- Hlocks.
      * split; [intros p Hp; now rewrite Hlocks | left; exact Hdst].
    + run_prims. cbn [andb]. now apply locks_respected_refl.
Qed.

Lemma process_classified_clears_no_lock (source : PathNodeInfo) (w : World)
    (p : NodePtr) :
  isMovementIneficient nodeStorage (nodes w) source (destination w) = false ->
  getBlockingReason pathfinder (nodes w) source (destination w) <> NONE ->
  locked (nodes w (node (info (destination w)))) = false ->
  locked (nodes w p) = true ->
  locked (nodes (snd (process cb nodeStorage pathfinder source w)) p) = true.
Proof.
  intros Hineff Hne Hfree Hp.
  destruct (process_classified_world cb nodeStorage pathfinder source w Hineff Hne)
    as (_ & _ & Hn).
  rewrite Hn.
  destruct (dispatch_respects_locks
              (getBlockingReason pathfinder (nodes w) source (destination w))
              (getGuardingCreatures cb (coord (info (destination w))))
              source (classified w)) as [Hmono Hredirect].
  cbn [classified nodes destination] in Hmono, Hredirect.
  unfold store_set.
  match goal with
  | |- locked (if Nat.eqb p ?q then _ else _) = true =>
      destruct (Nat.eqb p q) eqn:E; [| exact (Hmono p Hp)]
  end.
  apply Nat.eqb_eq in E. exfalso.
  destruct Hredirect as [Hsame | Hunlocked].
  - rewrite Hsame in E. congruence.
  - rewrite <- E in Hunlocked. congruence.
Qed.

(** One call of the rule on a destination whose node is not locked
    clears no lock. *)
Lemma process_clears_no_lock (source : PathNodeInfo) (w : World) (p : NodePtr) :
  locked (nodes w (node (info (destination w)))) = false ->
  locked (nodes w p) = true ->
  locked (nodes (snd (process cb nodeStorage pathfinder source w)) p) = true.
Proof.
  intros Hfree Hp.
  destruct (isMovementIneficient nodeStorage (nodes w) source (destination w)) eqn:Hineff.
  { rewrite (process_inefficient cb nodeStorage pathfinder source w Hineff).
    cbn [snd nodes]. unfold store_set. destruct (Nat.eqb p _); [reflexivity | exact Hp]. }
  destruct (getBlockingReason pathfinder (nodes w) source (destination w)) eqn:Hreason;
    [ rewrite (process_unclassified cb nodeStorage pathfinder source w Hineff Hreason);
      exact Hp
    | apply process_classified_clears_no_lock; auto; rewrite Hreason; discriminate .. ].
Qed.

(** C2. Once a node is locked no later call of [process] in the search
    pass unlocks it: along every sequence of edge evaluations of a pass
    (each into a node that is not locked when the rule is called, as the
    search guarantees), a node that is locked stays locked. The calls
    into the storage and the predecessor rule are taken to clear no
    lock. *)
Theorem locked_is_monotone :
  forall (w w' : World),
    search_pass cb nodeStorage pathfinder w w' ->
    forall p, locked (nodes w p) = true -> locked (nodes w' p) = true.
Proof.
  intros w w' Hpass. induction Hpass as [w | w w' source dst Hfree Hrest IH].
  - auto.
  - intros p Hp. apply IH.
    apply (process_clears_no_lock source (mk_World (nodes w) dst (trace w)) p);
      assumption.
Qed.

End Lock.

(** A pass of two edges. The first leads to node 1, a blocked tile
    without an enemy hero, and locks it; the second leads to node 3, a
    plain visit. Node 1 is locked at the end. *)
Lemma locked_is_monotone_witness :
  let cb := ex_cb 0 MISSION_NONE [] [] in
  let ns := ex_storage true false false None 400 300 in
  let blocker (d : CDestinationNodeInfo) :=
    match node (info d) with 1%nat => DESTINATION_BLOCKED | _ => DESTINATION_VISIT end in
  let pf := mk_Pathfinder (fun _ _ d => blocker d) (fun _ => false) 1%nat ex_link in
  let d1 := ex_destination None None ALLIES in
  let d3 := mk_CDestinationNodeInfo (mk_PathNodeInfo 3%nat None None gate ALLIES) false in
  let w0 := ex_world (ex_nodes false false 0) d1 in
  let w1 := snd (process cb ns pf ex_source w0) in
  let w2 := snd (process cb ns pf ex_source (mk_World (nodes w1) d3 (trace w1))) in
  locked (nodes w0 1%nat) = false /\
  locked (nodes w1 1%nat) = true /\
  search_pass cb ns pf w1 w2 /\
  locked (nodes w2 1%nat) = true.
Proof.
  cbv zeta.
  assert (Hkeep : keep_locks
                    (ex_storage true false false None 400 300)
                    (mk_Pathfinder
                       (fun _ _ d => match node (info d) with
                                     | 1%nat => DESTINATION_BLOCKED
                                     | _ => DESTINATION_VISIT
                                     end) (fun _ => false) 1%nat ex_link)).
  { exact (ex_keep_locks true false false None 400 300 NONE false). }
  split; [reflexivity |]. split; [reflexivity |].
  match goal with
  | |- search_pass ?c ?n ?f ?a ?b /\ _ =>
      assert (Hpass : search_pass c n f a b)
  end.
  { eapply pass_edge with (source := ex_source)
      (dst := mk_CDestinationNodeInfo (mk_PathNodeInfo 3%nat None None gate ALLIES) false).
    - reflexivity.
    - apply pass_done. }
  split; [exact Hpass |].
  exact (locked_is_monotone _ _ _ Hkeep _ _ Hpass 1%nat eq_refl).
Defined.

(** ** A locked destination in the search *)

Section Evaluate.

Variable cb : Callback.
Variable nodeStorage : AINodeStorage.
Variable pathfinder : Pathfinder.


End Evaluate.


(** * Properties of the turn timer handler *)

Module TurnTimerFacts.
Import TurnTimer.

Ltac break_match :=
  match goal with
  | |- context [match ?x with _ => _ end] => destruct x eqn:?
  end.

Lemma at_timer_set_eq (decl : Declarations) (h : Handler) (p : PlayerColor)
    (t : TurnTimerInfo) :
  at_timer decl (set_timer h p t) p = t.
Proof. unfold at_timer, set_timer. cbn. now rewrite Nat.eqb_refl. Qed.

Lemma timers_set_neq (h : Handler) (p q : PlayerColor) (t : TurnTimerInfo) :
  q <> p -> timers (set_timer h p t) q = timers h q.
Proof.
  intros Hne. unfold set_timer. cbn.
  destruct (Nat.eqb q p) eqn:E; [apply Nat.eqb_eq in E; contradiction | reflexivity].
Qed.

Lemma at_timer_set_neq (decl : Declarations) (h : Handler) (p q : PlayerColor)
    (t : TurnTimerInfo) :
  q <> p -> at_timer decl (set_timer h p t) q = at_timer decl h q.
Proof. intros Hne. unfold at_timer. now rewrite timers_set_neq. Qed.

Lemma at_timer_touch (decl : Declarations) (h : Handler) (p q : PlayerColor) :
  at_timer decl (touch decl h p) q = at_timer decl h q.
Proof.
  unfold touch. destruct (Nat.eq_dec q p) as [-> | Hne].
  - apply at_timer_set_eq.
  - now apply at_timer_set_neq.
Qed.

Lemma at_timer_perform (decl : Declarations) (e : Effect) (h : Handler)
    (q : PlayerColor) :
  at_timer decl (perform e h) q = at_timer decl h q.
Proof. reflexivity. Qed.

Lemma int_sub_zero (v : Z) : in_int v = true -> int_sub v 0 = Some v.
Proof. intros Hv. unfold int_sub. now rewrite Z.sub_0_r, Hv. Qed.

Lemma int_sub_some (a b c : Z) : int_sub a b = Some c -> c = a - b.
Proof. unfold int_sub. destruct (in_int (a - b)); congruence. Qed.

Lemma int_add_some (a b c : Z) : int_add a b = Some c -> c = a + b.
Proof. unfold int_add. destruct (in_int (a + b)); congruence. Qed.

Section MakingTurn.

Variable decl : Declarations.
Variable gameHandler : CGameHandler.

Lemma at_timer_rollOver (h : Handler) (p q : PlayerColor) :
  at_timer decl (rollOverBaseTimer decl p h) q =
  if Nat.eqb q p
  then mk_TurnTimerInfo (baseTimer (at_timer decl h p)) 0
                        (battleTimer (at_timer decl h p))
                        (creatureTimer (at_timer decl h p))
  else at_timer decl h q.
Proof.
  unfold rollOverBaseTimer. cbv zeta.
  destruct (Nat.eqb q p) eqn:E.
  - apply Nat.eqb_eq in E. subst q. rewrite !at_timer_set_eq. reflexivity.
  - apply Nat.eqb_neq in E. now rewrite !at_timer_set_neq.
Qed.

(** What charging the turn timer leaves behind when it returns. *)
Lemma chargeTurnTimer_done (state : PlayerState) (p : PlayerColor) (waitTime : Z)
    (h h' : Handler) :
  chargeTurnTimer decl state p waitTime h = Done h' ->
  let t' := with_turnTimer (turnTimer (at_timer decl h p) - waitTime)
                           (at_timer decl h p) in
  at_timer decl h' p = t' /\
  (forall q, q <> p -> timers h' q = timers h q) /\
  (effects h' = effects h \/
   effects h' = effects h ++ [SendAndApply (mk_TurnTimeUpdate (color state) t')]).
Proof.
  unfold chargeTurnTimer. cbv zeta. intros Hrun.
  destruct (int_sub (turnTimer (at_timer decl h p)) waitTime) as [turn'|] eqn:Hsub;
    [| discriminate].
  apply int_sub_some in Hsub. subst turn'.
  repeat match type of Hrun with
         | context [match ?x with _ => _ end] => destruct x eqn:?
         end;
    try discriminate; injection Hrun as <-;
    rewrite ?at_timer_perform, at_timer_set_eq;
    (split; [reflexivity |]); (split; [intros q Hq; now apply timers_set_neq |]);
    cbn; auto.
Qed.

(** Charging returns whenever the difference fits an [int] and the
    propagation periods are positive. *)
Lemma chargeTurnTimer_returns (state : PlayerState) (p : PlayerColor) (waitTime : Z)
    (h : Handler) :
  positive_periods decl ->
  in_int (turnTimer (at_timer decl h p) - waitTime) = true ->
  exists h', chargeTurnTimer decl state p waitTime h = Done h'.
Proof.
  intros [Hfreq Hcrit] Hfits. unfold chargeTurnTimer, int_sub. cbv zeta.
  rewrite Hfits.
  destruct (is_INGAME (status state)); [| eexists; reflexivity].
  unfold int_rem.
  match goal with
  | |- context [if ?v >? ?th then _ else _] => destruct (v >? th)
  end.
  - destruct (Z.eqb_spec (turnTimePropagateFrequency decl) 0); [lia |].
    destruct (Z.eqb_spec (turnTimePropagateFrequency decl) (-1)); [lia |].
    rewrite andb_false_r. break_match; eexists; reflexivity.
  - destruct (Z.eqb_spec (turnTimePropagateFrequencyCrit decl) 0); [lia |].
    destruct (Z.eqb_spec (turnTimePropagateFrequencyCrit decl) (-1)); [lia |].
    rewrite andb_false_r. break_match; eexists; reflexivity.
Qed.

(** [onPlayerMakingTurn] for a human player with the timer on and no
    battle running, by the state of the player's timer. *)
Lemma onPlayerMakingTurn_active (f : nat) (p : PlayerColor) (waitTime : Z)
    (h : Handler) (gs : CGameState) (si : StartInfo) (state : PlayerState) :
  gameState gameHandler = Some gs ->
  getStartInfo gameHandler = Some si ->
  players gs p = Some state ->
  human state && isEnabled decl (turnTimerInfo si) && negb (not_null (curB gs)) = true ->
  let t := at_timer decl h p in
  onPlayerMakingTurn decl gameHandler (S (S f)) p waitTime h =
  if turnTimer t >? 0 then chargeTurnTimer decl state p waitTime (touch decl h p)
  else if baseTimer t >? 0 then
    chargeTurnTimer decl state p 0
      (touch decl (rollOverBaseTimer decl p (touch decl h p)) p)
  else if negb (topQuery gameHandler (color state))
  then Done (perform (OnPlayerEndsTurn (color state)) (touch decl h p))
  else Done (touch decl h p).
Proof.
  intros Hgs Hsi Hplayer Hactive. cbv zeta. cbn [onPlayerMakingTurn].
  rewrite Hgs, Hsi, Hplayer, Hactive.
  destruct (turnTimer (at_timer decl h p) >? 0) eqn:Hturn; [reflexivity |].
  destruct (baseTimer (at_timer decl h p) >? 0) eqn:Hbase; [| reflexivity].
  rewrite at_timer_rollOver, Nat.eqb_refl, at_timer_touch.
  cbn [turnTimer]. rewrite Hbase. reflexivity.
Qed.

Lemma onPlayerMakingTurn_idle (f : nat) (p : PlayerColor) (waitTime : Z)
    (h : Handler) :
  (gameState gameHandler = None \/ getStartInfo gameHandler = None \/
   exists gs si state,
     gameState gameHandler = Some gs /\ getStartInfo gameHandler = Some si /\
     players gs p = Some state /\
     human state && isEnabled decl (turnTimerInfo si) && negb (not_null (curB gs))
       = false) ->
  onPlayerMakingTurn decl gameHandler (S f) p waitTime h = Done h.
Proof.
  cbn [onPlayerMakingTurn].
  intros [Hgs | [Hsi | (gs & si & state & Hgs & Hsi & Hplayer & Hidle)]].
  - now rewrite Hgs.
  - rewrite Hsi. now destruct (gameState gameHandler).
  - now rewrite Hgs, Hsi, Hplayer, Hidle.
Qed.

(** The outcomes of a call with fuel for one nested call. *)
Lemma onPlayerMakingTurn_cases (f : nat) (p : PlayerColor) (waitTime : Z)
    (h : Handler) :
  let run := onPlayerMakingTurn decl gameHandler (S (S f)) p waitTime h in
  run = Done h \/
  (exists gs si,
      gameState gameHandler = Some gs /\ getStartInfo gameHandler = Some si /\
      players gs p = None /\ run = OutOfRange) \/
  (exists gs si state,
      gameState gameHandler = Some gs /\ getStartInfo gameHandler = Some si /\
      players gs p = Some state /\
      human state && isEnabled decl (turnTimerInfo si) && negb (not_null (curB gs))
        = true).
Proof.
  cbv zeta.
  destruct (gameState gameHandler) as [gs|] eqn:Hgs.
  2: { left. apply onPlayerMakingTurn_idle. auto. }
  destruct (getStartInfo gameHandler) as [si|] eqn:Hsi.
  2: { left. apply onPlayerMakingTurn_idle. auto. }
  destruct (players gs p) as [state|] eqn:Hplayer.
  2: { right. left. exists gs, si. repeat split; auto.
       cbn [onPlayerMakingTurn]. now rewrite Hgs, Hsi, Hplayer. }
  destruct (human state && isEnabled decl (turnTimerInfo si)
            && negb (not_null (curB gs))) eqn:Hactive.
  - right. right. exists gs, si, state. auto.
  - left. apply onPlayerMakingTurn_idle. right. right. exists gs, si, state. auto.
Qed.

Lemma chargeTurnTimer_outcome (state : PlayerState) (p : PlayerColor) (waitTime : Z)
    (h : Handler) :
  chargeTurnTimer decl state p waitTime h = Undefined \/
  exists h', chargeTurnTimer decl state p waitTime h = Done h'.
Proof.
  unfold chargeTurnTimer. cbv zeta.
  repeat break_match; auto; right; eexists; reflexivity.
Qed.

Lemma onPlayerMakingTurn_two_suffice (f : nat) (p : PlayerColor) (waitTime : Z)
    (h : Handler) :
  onPlayerMakingTurn decl gameHandler (S (S f)) p waitTime h
  = onPlayerMakingTurn decl gameHandler 2 p waitTime h /\
  onPlayerMakingTurn decl gameHandler (S (S f)) p waitTime h <> OutOfFuel.
Proof.
  destruct (gameState gameHandler) as [gs|] eqn:Hgs.
  2: { rewrite !onPlayerMakingTurn_idle by auto. split; [reflexivity | discriminate]. }
  destruct (getStartInfo gameHandler) as [si|] eqn:Hsi.
  2: { rewrite !onPlayerMakingTurn_idle by auto. split; [reflexivity | discriminate]. }
  destruct (players gs p) as [state|] eqn:Hplayer.
  2: { cbn [onPlayerMakingTurn]. rewrite Hgs, Hsi, Hplayer.
       split; [reflexivity | discriminate]. }
  destruct (human state && isEnabled decl (turnTimerInfo si)
            && negb (not_null (curB gs))) eqn:Hactive.
  2: { rewrite !onPlayerMakingTurn_idle
         by (right; right; exists gs, si, state; auto).
       split; [reflexivity | discriminate]. }
  rewrite (onPlayerMakingTurn_active f p waitTime h gs si state Hgs Hsi Hplayer Hactive).
  rewrite (onPlayerMakingTurn_active 0 p waitTime h gs si state Hgs Hsi Hplayer Hactive).
  split; [reflexivity |]. cbv zeta.
  repeat break_match; try discriminate;
    match goal with
    | |- chargeTurnTimer ?d ?s ?q ?w ?g <> _ =>
        destruct (chargeTurnTimer_outcome s q w g) as [Hu | [h' Hd]];
        [rewrite Hu | rewrite Hd]; discriminate
    end.
Qed.

(** X10. The recursion of [onPlayerMakingTurn] is one level deep: with
    fuel for the call and one nested call the model never runs out of
    fuel, and more fuel does not change the outcome. *)
Theorem onPlayerMakingTurn_recursion_is_bounded :
  forall (fuel : nat) (p : PlayerColor) (waitTime : Z) (h : Handler),
    (2 <= fuel)%nat ->
    onPlayerMakingTurn decl gameHandler fuel p waitTime h
    = onPlayerMakingTurn decl gameHandler 2 p waitTime h /\
    onPlayerMakingTurn decl gameHandler fuel p waitTime h <> OutOfFuel.
Proof.
  intros fuel p waitTime h Hfuel.
  destruct fuel as [|[|fuel]]; [lia | lia |].
  apply onPlayerMakingTurn_two_suffice.
Qed.

(** X11. [onPlayerMakingTurn] throws exactly when the game state and the
    start info are there and the player has no state in the game: the
    lookup [players.at(player)] comes before every test of the timer, so
    an unknown player throws even with the timer switched off. *)
Theorem onPlayerMakingTurn_throws_for_unknown_player :
  forall (fuel : nat) (p : PlayerColor) (waitTime : Z) (h : Handler),
    (2 <= fuel)%nat ->
    (onPlayerMakingTurn decl gameHandler fuel p waitTime h = OutOfRange <->
     exists gs si,
       gameState gameHandler = Some gs /\ getStartInfo gameHandler = Some si /\
       players gs p = None).
Proof.
  intros fuel p waitTime h Hfuel.
  destruct fuel as [|[|fuel]]; [lia | lia |].
  destruct (onPlayerMakingTurn_cases fuel p waitTime h)
    as [Hidle | [(gs & si & Hgs & Hsi & Hp & Hthrow)
                | (gs & si & state & Hgs & Hsi & Hp & Ha)]];
    cbv zeta in *.
  - rewrite Hidle. split; [discriminate |].
    intros (gs & si & Hgs & Hsi & Hp). exfalso.
    cbn [onPlayerMakingTurn] in Hidle. rewrite Hgs, Hsi, Hp in Hidle. discriminate.
  - rewrite Hthrow. split; [intros _; exists gs, si; auto | reflexivity].
  - rewrite (onPlayerMakingTurn_active fuel p waitTime h gs si state Hgs Hsi Hp Ha).
    cbv zeta. split.
    + repeat break_match; try discriminate;
        match goal with
        | |- chargeTurnTimer ?d ?s ?q ?w ?g = _ -> _ =>
            destruct (chargeTurnTimer_outcome s q w g) as [Hu | [h' Hd]];
            [rewrite Hu | rewrite Hd]; discriminate
        end.
    + intros (gs' & si' & Hgs' & _ & Hnone). congruence.
Qed.

(** X12. The turn is ended for a player only when there is nothing left
    on the turn timer and on the base timer and no query is pending. *)
Theorem turn_ends_only_out_of_time :
  forall (fuel : nat) (p c : PlayerColor) (waitTime : Z) (h h' : Handler),
    (2 <= fuel)%nat ->
    onPlayerMakingTurn decl gameHandler fuel p waitTime h = Done h' ->
    ~ In (OnPlayerEndsTurn c) (effects h) ->
    In (OnPlayerEndsTurn c) (effects h') ->
    turnTimer (at_timer decl h p) <= 0 /\
    baseTimer (at_timer decl h p) <= 0 /\
    topQuery gameHandler c = false.
Proof.
  intros fuel p c waitTime h h' Hfuel Hrun Hbefore Hafter.
  destruct fuel as [|[|fuel]]; [lia | lia |].
  assert (Hcharge : forall state wt g,
             effects g = effects h ->
             chargeTurnTimer decl state p wt g = Done h' -> False).
  { intros state wt g Hg Hdone.
    destruct (chargeTurnTimer_done state p wt g h' Hdone) as (_ & _ & [He | He]);
      rewrite He, Hg in Hafter; [contradiction |].
    apply in_app_or in Hafter as [Hin | [Hin | []]]; [contradiction | discriminate]. }
  destruct (onPlayerMakingTurn_cases fuel p waitTime h)
    as [Hidle | [(gs & si & Hgs & Hsi & Hp & Hthrow)
                | (gs & si & state & Hgs & Hsi & Hp & Ha)]];
    cbv zeta in *.
  - rewrite Hidle in Hrun. injection Hrun as <-. contradiction.
  - rewrite Hthrow in Hrun. discriminate.
  - rewrite (onPlayerMakingTurn_active fuel p waitTime h gs si state Hgs Hsi Hp Ha)
      in Hrun.
    cbv zeta in Hrun.
    destruct (turnTimer (at_timer decl h p) >? 0) eqn:Hturn.
    { exfalso. exact (Hcharge state waitTime (touch decl h p) eq_refl Hrun). }
    destruct (baseTimer (at_timer decl h p) >? 0) eqn:Hbase.
    { exfalso. refine (Hcharge state 0 _ _ Hrun). reflexivity. }
    destruct (negb (topQuery gameHandler (color state))) eqn:Hquery;
      injection Hrun as <-.
    2: { contradiction. }
    cbn in Hafter. apply in_app_or in Hafter as [Hin | [Hin | []]]; [contradiction |].
    injection Hin as <-.
    rewrite Z.gtb_ltb in Hturn, Hbase. apply Z.ltb_ge in Hturn, Hbase.
    apply negb_true_iff in Hquery.
    repeat split; auto.
Qed.

(** Charging, when nothing is undefined, in one equation. *)
Lemma chargeTurnTimer_exact (state : PlayerState) (p : PlayerColor) (waitTime : Z)
    (h : Handler) :
  positive_periods decl ->
  in_int (turnTimer (at_timer decl h p) - waitTime) = true ->
  let turn' := turnTimer (at_timer decl h p) - waitTime in
  let t' := with_turnTimer turn' (at_timer decl h p) in
  let frequency := if turn' >? turnTimePropagateThreshold decl
                   then turnTimePropagateFrequency decl
                   else turnTimePropagateFrequencyCrit decl in
  chargeTurnTimer decl state p waitTime h =
  Done (if is_INGAME (status state) && (Z.rem turn' frequency =? 0)
        then perform (SendAndApply (mk_TurnTimeUpdate (color state) t'))
                     (set_timer h p t')
        else set_timer h p t').
Proof.
  intros [Hfreq Hcrit] Hfits. cbv zeta. unfold chargeTurnTimer, int_sub. cbv zeta.
  rewrite Hfits.
  destruct (is_INGAME (status state)); [| reflexivity]. cbn [andb].
  unfold int_rem.
  match goal with
  | |- context [if ?v >? ?th then _ else _] => destruct (v >? th)
  end.
  - destruct (Z.eqb_spec (turnTimePropagateFrequency decl) 0); [lia |].
    destruct (Z.eqb_spec (turnTimePropagateFrequency decl) (-1)); [lia |].
    rewrite andb_false_r. now destruct (Z.rem _ _ =? 0).
  - destruct (Z.eqb_spec (turnTimePropagateFrequencyCrit decl) 0); [lia |].
    destruct (Z.eqb_spec (turnTimePropagateFrequencyCrit decl) (-1)); [lia |].
    rewrite andb_false_r. now destruct (Z.rem _ _ =? 0).
Qed.

(** X13. While a human player's turn timer runs (timer on, no battle),
    a call charges exactly the waiting time to the turn timer and to
    nothing else, and propagates the new value exactly when the player is
    in the game and the new value is a multiple of the period: the long
    period above the threshold, the short one at or below it. *)
Theorem turn_timer_is_charged :
  forall (fuel : nat) (p : PlayerColor) (waitTime : Z) (h : Handler)
         (gs : CGameState) (si : StartInfo) (state : PlayerState),
    (2 <= fuel)%nat ->
    gameState gameHandler = Some gs ->
    getStartInfo gameHandler = Some si ->
    players gs p = Some state ->
    human state && isEnabled decl (turnTimerInfo si) && negb (not_null (curB gs)) = true ->
    positive_periods decl ->
    let t := at_timer decl h p in
    turnTimer t > 0 ->
    in_int (turnTimer t - waitTime) = true ->
    let turn' := turnTimer t - waitTime in
    let period := if turn' >? turnTimePropagateThreshold decl
                  then turnTimePropagateFrequency decl
                  else turnTimePropagateFrequencyCrit decl in
    exists h',
      onPlayerMakingTurn decl gameHandler fuel p waitTime h = Done h' /\
      at_timer decl h' p = with_turnTimer turn' t /\
      (forall q, q <> p -> at_timer decl h' q = at_timer decl h q) /\
      effects h' =
        effects h ++
        (if is_INGAME (status state) && (Z.rem turn' period =? 0)
         then [SendAndApply (mk_TurnTimeUpdate (color state) (with_turnTimer turn' t))]
         else []).
Proof.
  intros fuel p waitTime h gs si state Hfuel Hgs Hsi Hp Ha Hperiods. cbv zeta.
  intros Hturn Hfits.
  destruct fuel as [|[|fuel]]; [lia | lia |].
  rewrite (onPlayerMakingTurn_active fuel p waitTime h gs si state Hgs Hsi Hp Ha).
  cbv zeta. apply Z.gt_lt, Z.gtb_lt in Hturn. rewrite Hturn.
  rewrite chargeTurnTimer_exact by (rewrite ?at_timer_touch; auto).
  cbv zeta. rewrite !at_timer_touch.
  eexists. split; [reflexivity |].
  destruct (is_INGAME (status state) && _).
  - rewrite at_timer_perform, at_timer_set_eq. repeat split.
    intros q Hq. now rewrite at_timer_perform, at_timer_set_neq, at_timer_touch.
  - rewrite at_timer_set_eq. repeat split.
    + intros q Hq. now rewrite at_timer_set_neq, at_timer_touch.
    + cbn. now rewrite app_nil_r.
Qed.

(** X14. When the turn timer has run out and base time is left, the call
    moves the whole base timer into the turn timer and empties the base
    timer; nothing is charged on that call (the nested call waits 0), and
    what the turn timer had run below zero is not carried over. *)
Theorem base_timer_rolls_over :
  forall (fuel : nat) (p : PlayerColor) (waitTime : Z) (h : Handler)
         (gs : CGameState) (si : StartInfo) (state : PlayerState),
    (2 <= fuel)%nat ->
    gameState gameHandler = Some gs ->
    getStartInfo gameHandler = Some si ->
    players gs p = Some state ->
    human state && isEnabled decl (turnTimerInfo si) && negb (not_null (curB gs)) = true ->
    positive_periods decl ->
    let t := at_timer decl h p in
    turnTimer t <= 0 ->
    baseTimer t > 0 ->
    in_int (baseTimer t) = true ->
    exists h',
      onPlayerMakingTurn decl gameHandler fuel p waitTime h = Done h' /\
      at_timer decl h' p
        = mk_TurnTimerInfo (baseTimer t) 0 (battleTimer t) (creatureTimer t) /\
      (forall q, q <> p -> at_timer decl h' q = at_timer decl h q) /\
      ~ In (OnPlayerEndsTurn (color state)) (skipn (length (effects h)) (effects h')).
Proof.
  intros fuel p waitTime h gs si state Hfuel Hgs Hsi Hp Ha Hperiods. cbv zeta.
  intros Hturn Hbase Hfits.
  destruct fuel as [|[|fuel]]; [lia | lia |].
  rewrite (onPlayerMakingTurn_active fuel p waitTime h gs si state Hgs Hsi Hp Ha).
  cbv zeta.
  assert (Hturn' : (turnTimer (at_timer decl h p) >? 0) = false)
    by (rewrite Z.gtb_ltb; apply Z.ltb_ge; exact Hturn).
  apply Z.gt_lt, Z.gtb_lt in Hbase. rewrite Hturn', Hbase.
  assert (Hrolled : at_timer decl
                      (touch decl (rollOverBaseTimer decl p (touch decl h p)) p) p
                    = mk_TurnTimerInfo (baseTimer (at_timer decl h p)) 0
                        (battleTimer (at_timer decl h p))
                        (creatureTimer (at_timer decl h p))).
  { rewrite at_timer_touch, at_timer_rollOver, Nat.eqb_refl, at_timer_touch.
    reflexivity. }
  rewrite chargeTurnTimer_exact
    by (rewrite ?Hrolled; cbn [turnTimer]; rewrite ?Z.sub_0_r; auto).
  cbv zeta. rewrite Hrolled. cbn [turnTimer with_turnTimer baseTimer battleTimer
                                   creatureTimer]. rewrite Z.sub_0_r.
  assert (Hskip : forall l l' : list Effect, skipn (length l) (l ++ l') = l').
  { intros l l'. induction l; [reflexivity | exact IHl]. }
  assert (Hothers : forall g q, q <> p ->
            at_timer decl
              (set_timer (touch decl (rollOverBaseTimer decl p (touch decl h p)) p) p g) q
            = at_timer decl h q).
  { intros g q Hq. rewrite at_timer_set_neq, at_timer_touch, at_timer_rollOver by exact Hq.
    apply Nat.eqb_neq in Hq. rewrite Hq. apply at_timer_touch. }
  eexists. split; [reflexivity |].
  destruct (is_INGAME (status state) && _).
  - rewrite at_timer_perform, at_timer_set_eq. repeat split.
    + intros q Hq. rewrite at_timer_perform. now apply Hothers.
    + cbn [perform effects set_timer touch rollOverBaseTimer]. rewrite Hskip.
      cbn. intuition discriminate.
  - rewrite at_timer_set_eq. repeat split.
    + intros q Hq. now apply Hothers.
    + cbn [effects set_timer touch rollOverBaseTimer].
      rewrite <- (app_nil_r (effects h)) at 2. rewrite Hskip. auto.
Qed.

End MakingTurn.

Section TurnStart.

Variable decl : Declarations.
Variable gameHandler : CGameHandler.

(** X15. When a player gets the turn, the time left on the turn timer is
    added to the base timer and the turn timer starts again from the
    configured value; the battle timers and the other players are not
    touched, and the new timer is sent once. *)
Theorem unused_turn_time_is_banked :
  forall (p : PlayerColor) (h : Handler) (si : StartInfo),
    getStartInfo gameHandler = Some si ->
    isEnabled decl (turnTimerInfo si) = true ->
    let t := at_timer decl h p in
    in_int (baseTimer t + turnTimer t) = true ->
    let t' := mk_TurnTimerInfo (turnTimer (turnTimerInfo si))
                               (baseTimer t + turnTimer t)
                               (battleTimer t) (creatureTimer t) in
    exists h',
      onPlayerGetTurn decl gameHandler p h = Done h' /\
      at_timer decl h' p = t' /\
      (forall q, q <> p -> at_timer decl h' q = at_timer decl h q) /\
      effects h' = effects h ++ [SendAndApply (mk_TurnTimeUpdate p t')].
Proof.
  intros p h si Hsi Henabled. cbv zeta. intros Hfits.
  unfold onPlayerGetTurn, int_add. rewrite Hsi, Henabled, Hfits.
  eexists. split; [reflexivity |].
  unfold sendAndApply. rewrite at_timer_perform, !at_timer_set_eq.
  cbn [with_turnTimer with_baseTimer turnTimer baseTimer battleTimer creatureTimer].
  repeat split.
  intros q Hq. now rewrite at_timer_perform, !at_timer_set_neq.
Qed.

(** X16. Start of the game followed by the first turn: the player holds
    exactly the configured timer, whatever the handler held before. *)
Theorem first_turn_starts_with_the_configured_timer :
  forall (p : PlayerColor) (h : Handler) (si : StartInfo),
    getStartInfo gameHandler = Some si ->
    isEnabled decl (turnTimerInfo si) = true ->
    in_int (baseTimer (turnTimerInfo si)) = true ->
    exists h',
      onPlayerGetTurn decl gameHandler p (onGameplayStart decl gameHandler p h)
        = Done h' /\
      at_timer decl h' p = turnTimerInfo si /\
      (forall q, q <> p -> at_timer decl h' q = at_timer decl h q).
Proof.
  intros p h si Hsi Henabled Hfits.
  unfold onPlayerGetTurn, onGameplayStart, int_add. rewrite Hsi, Henabled.
  rewrite !at_timer_set_eq.
  cbn [with_turnTimer with_baseTimer turnTimer baseTimer battleTimer creatureTimer].
  rewrite Z.add_0_r, Hfits.
  eexists. split; [reflexivity |].
  unfold sendAndApply. rewrite at_timer_perform, !at_timer_set_eq.
  cbn [with_turnTimer with_baseTimer turnTimer baseTimer battleTimer creatureTimer].
  split; [now destruct (turnTimerInfo si) |].
  intros q Hq. now rewrite at_timer_perform, !at_timer_set_neq.
Qed.

End TurnStart.

Section Battle.

Variable decl : Declarations.
Variable gameHandler : CGameHandler.

(** What the lambda of [onBattleLoop] leaves behind when it returns. *)
Lemma turnTimerUpdateApplier_done (si : StartInfo) (state : PlayerState)
    (key : PlayerColor) (waitTime : Z) (h h' : Handler) (charged : bool) :
  turnTimerUpdateApplier decl si state key waitTime h = Done (charged, h') ->
  let t := at_timer decl h key in
  (charged = true /\ creatureTimer t > 0 /\
   at_timer decl h' key = with_creatureTimer (creatureTimer t - waitTime) t /\
   (forall q, q <> key -> at_timer decl h' q = at_timer decl h q) /\
   (effects h' = effects h \/
    exists ttu, effects h' = effects h ++ [SendAndApply ttu]))
  \/
  (charged = false /\ creatureTimer t <= 0 /\
   (forall q, at_timer decl h' q = at_timer decl h q) /\
   effects h' = effects h).
Proof.
  unfold turnTimerUpdateApplier. cbv zeta. intros Hrun.
  destruct (creatureTimer (at_timer decl h key) >? 0) eqn:Hcreature.
  - left. apply Z.gtb_lt, Z.lt_gt in Hcreature.
    destruct (int_sub (creatureTimer (at_timer decl h key)) waitTime)
      as [creature'|] eqn:Hsub; [| discriminate].
    apply int_sub_some in Hsub. subst creature'.
    repeat match type of Hrun with
           | context [match ?x with _ => _ end] => destruct x eqn:?
           end;
      try discriminate; injection Hrun as <- <-;
      rewrite ?at_timer_perform, at_timer_set_eq;
      (split; [reflexivity |]); (split; [exact Hcreature |]);
      (split; [reflexivity |]);
      (split; [intros q Hq;
               now rewrite ?at_timer_perform, at_timer_set_neq, at_timer_touch |]);
      cbn; eauto.
  - right. injection Hrun as <- <-.
    rewrite Z.gtb_ltb in Hcreature. apply Z.ltb_ge in Hcreature.
    repeat split; auto. intros q. apply at_timer_touch.
Qed.

(** The outcomes of [onBattleLoop] that return, by the branch taken. *)
Lemma onBattleLoop_done (waitTime : Z) (h h' : Handler) :
  onBattleLoop decl gameHandler waitTime h = Done h' ->
  h' = h \/
  exists gs si battle stack state,
    gameState gameHandler = Some gs /\ getStartInfo gameHandler = Some si /\
    curB gs = Some battle /\ activeStack battle = Some stack /\
    players gs (getSidePlayer battle (unitSide stack)) = Some state /\
    let c := color state in
    let t := at_timer decl h c in
    (forall q, q <> c -> at_timer decl h' q = at_timer decl h q) /\
    ((creatureTimer t > 0 /\
      at_timer decl h' c = with_creatureTimer (creatureTimer t - waitTime) t /\
      (effects h' = effects h \/
       exists ttu, effects h' = effects h ++ [SendAndApply ttu]))
     \/
     (creatureTimer t <= 0 /\ battleTimer t > 0 /\
      at_timer decl h' c
        = mk_TurnTimerInfo (turnTimer t) (baseTimer t) 0 (battleTimer t) /\
      (effects h' = effects h \/
       exists ttu, effects h' = effects h ++ [SendAndApply ttu]))
     \/
     (creatureTimer t <= 0 /\ battleTimer t <= 0 /\
      at_timer decl h' c = t /\
      effects h' = effects h ++
        [MakePlayerBattleAction c
           (mk_BattleAction DEFEND (unitSide stack) (unitId stack))])).
Proof.
  unfold onBattleLoop. intros Hrun.
  destruct (gameState gameHandler) as [gs|]; [| injection Hrun; auto].
  destruct (getStartInfo gameHandler) as [si|]; [| injection Hrun; auto].
  destruct (curB gs) as [battle|] eqn:Hbattle; [| injection Hrun; auto].
  destruct (activeStack battle) as [stack|] eqn:Hstack; [| injection Hrun; auto].
  destruct (negb (isValidPlayer decl (getOwner stack))); [injection Hrun; auto |].
  destruct (players gs (getSidePlayer battle (unitSide stack))) as [state|] eqn:Hstate;
    [| discriminate].
  destruct (human state && isBattleEnabled decl (turnTimerInfo si));
    [| injection Hrun; auto].
  right. exists gs, si, battle, stack, state.
  do 5 (split; [reflexivity || assumption |]). cbv zeta.
  destruct (turnTimerUpdateApplier decl si state (color state) waitTime h)
    as [[charged h1]| | |] eqn:Hfirst; try discriminate.
  destruct (turnTimerUpdateApplier_done si state (color state) waitTime h h1 charged
              Hfirst)
    as [(-> & Hc & Ht & Ho & He) | (-> & Hc & Hsame & He)].
  { injection Hrun as <-. split; [exact Ho |]. left. auto. }
  rewrite Hsame in Hrun.
  destruct (battleTimer (at_timer decl h (color state)) >? 0) eqn:Hbt.
  - apply Z.gtb_lt, Z.lt_gt in Hbt.
    match type of Hrun with
    | context [turnTimerUpdateApplier decl si state (color state) 0 ?g] =>
        destruct (turnTimerUpdateApplier decl si state (color state) 0 g)
          as [[charged h4]| | |] eqn:Hsecond; try discriminate;
        pose proof (turnTimerUpdateApplier_done si state (color state) 0 g h4 charged
                      Hsecond) as Hdone
    end.
    injection Hrun as <-. cbv zeta in Hdone.
    rewrite !at_timer_set_eq in Hdone.
    cbn [with_creatureTimer with_battleTimer creatureTimer battleTimer turnTimer
         baseTimer] in Hdone.
    destruct Hdone as [(_ & _ & Ht & Ho & He4) | (_ & Hle & _)]; [| lia].
    rewrite Z.sub_0_r in Ht.
    split.
    + intros q Hq. rewrite (Ho q Hq), !at_timer_set_neq by exact Hq. apply Hsame.
    + right. left. repeat split; auto.
      cbn [effects set_timer] in He4. rewrite He in He4. exact He4.
  - rewrite Z.gtb_ltb in Hbt. apply Z.ltb_ge in Hbt. injection Hrun as <-.
    split.
    + intros q _. rewrite at_timer_perform. apply Hsame.
    + right. right. repeat split; auto.
      * rewrite at_timer_perform. apply Hsame.
      * cbn. now rewrite He.
Qed.

Lemma at_timer_startBattleTimer (si : StartInfo) (h : Handler) (i q : PlayerColor) :
  at_timer decl (startBattleTimer decl si h i) q =
  if isValidPlayer decl i && Nat.eqb q i
  then with_creatureTimer (creatureTimer (turnTimerInfo si))
         (with_battleTimer (battleTimer (turnTimerInfo si)) (at_timer decl h q))
  else at_timer decl h q.
Proof.
  unfold startBattleTimer. cbv zeta.
  destruct (isValidPlayer decl i); [| reflexivity]. cbn [andb].
  unfold sendAndApply. rewrite at_timer_perform.
  destruct (Nat.eqb q i) eqn:E.
  - apply Nat.eqb_eq in E. subst q. now rewrite !at_timer_set_eq.
  - apply Nat.eqb_neq in E. now rewrite !at_timer_set_neq.
Qed.

(** X17. At the start of a battle each side that is a valid player gets
    the configured battle and creature timers, the attacker first; the
    turn and base timers stay, a side that is no valid player (a neutral
    army) is skipped, and no other player is touched. *)
Theorem battle_start_arms_both_sides :
  forall (h : Handler) (gs : CGameState) (si : StartInfo) (battle : BattleInfo),
    gameState gameHandler = Some gs ->
    getStartInfo gameHandler = Some si ->
    curB gs = Some battle ->
    isBattleEnabled decl (turnTimerInfo si) = true ->
    let attacker := getSidePlayer battle ATTACKER in
    let defender := getSidePlayer battle DEFENDER in
    let armed t := mk_TurnTimerInfo (turnTimer t) (baseTimer t)
                     (battleTimer (turnTimerInfo si))
                     (creatureTimer (turnTimerInfo si)) in
    let h' := onBattleStart decl gameHandler h in
    (forall q,
        at_timer decl h' q =
        if isValidPlayer decl q && (Nat.eqb q attacker || Nat.eqb q defender)
        then armed (at_timer decl h q)
        else at_timer decl h q) /\
    effects h' =
      effects h ++
      map (fun i => SendAndApply (mk_TurnTimeUpdate i (armed (at_timer decl h i))))
          (filter (isValidPlayer decl) [attacker; defender]).
Proof.
  intros h gs si battle Hgs Hsi Hbattle Henabled. cbv zeta.
  unfold onBattleStart. rewrite Hgs, Hsi, Hbattle, Henabled. cbn [fold_left].
  split.
  - intros q. rewrite !at_timer_startBattleTimer.
    destruct (Nat.eqb_spec q (getSidePlayer battle ATTACKER)) as [Ea | Ea];
      destruct (Nat.eqb_spec q (getSidePlayer battle DEFENDER)) as [Ed | Ed];
      rewrite <- ?Ea, <- ?Ed; rewrite ?andb_false_r; cbn [orb];
      rewrite ?andb_true_r;
      destruct (isValidPlayer decl q); cbn [andb]; reflexivity.
  - unfold startBattleTimer, sendAndApply. cbv zeta. cbn [filter map].
    destruct (isValidPlayer decl (getSidePlayer battle ATTACKER)) eqn:Ha;
      destruct (isValidPlayer decl (getSidePlayer battle DEFENDER)) eqn:Hd;
      cbn [perform effects set_timer map app];
      rewrite ?at_timer_perform, ?at_timer_set_eq, <- ?app_assoc; cbn [app];
      try reflexivity; try (now rewrite app_nil_r).
    do 3 f_equal.
    destruct (Nat.eq_dec (getSidePlayer battle DEFENDER) (getSidePlayer battle ATTACKER))
      as [-> | Hne].
    + now rewrite !at_timer_set_eq.
    + now rewrite !at_timer_set_neq.
Qed.

(** X18. Whatever was left on the creature timer when the next stack of a
    valid player comes up replaces that player's battle timer if the
    battle timer is below its configured value (it is not added to it);
    the creature timer starts again from the configured value, and the
    new timer is sent. *)
Theorem next_stack_rearms_the_creature_timer :
  forall (stack : CStack) (h : Handler) (gs : CGameState) (si : StartInfo)
         (battle : BattleInfo),
    gameState gameHandler = Some gs ->
    getStartInfo gameHandler = Some si ->
    curB gs = Some battle ->
    isBattleEnabled decl (turnTimerInfo si) = true ->
    isValidPlayer decl (getOwner stack) = true ->
    let p := getOwner stack in
    let t := at_timer decl h p in
    let t' := mk_TurnTimerInfo (turnTimer t) (baseTimer t)
                (if battleTimer t <? battleTimer (turnTimerInfo si)
                 then creatureTimer t else battleTimer t)
                (creatureTimer (turnTimerInfo si)) in
    let h' := onBattleNextStack decl gameHandler stack h in
    at_timer decl h' p = t' /\
    (forall q, q <> p -> at_timer decl h' q = at_timer decl h q) /\
    effects h' = effects h ++ [SendAndApply (mk_TurnTimeUpdate p t')].
Proof.
  intros stack h gs si battle Hgs Hsi Hbattle Henabled Hvalid. cbv zeta.
  unfold onBattleNextStack. rewrite Hgs, Hsi, Hbattle, Henabled, Hvalid. cbn [negb].
  unfold sendAndApply. rewrite !at_timer_perform.
  destruct (battleTimer (at_timer decl h (getOwner stack))
            <? battleTimer (turnTimerInfo si));
    rewrite !at_timer_set_eq, ?at_timer_touch;
    cbn [with_creatureTimer with_battleTimer turnTimer baseTimer battleTimer
         creatureTimer];
    repeat split;
    intros q Hq; rewrite at_timer_perform, !at_timer_set_neq by exact Hq;
    apply at_timer_touch.
Qed.

(** X19. A battle handler never touches a turn timer or a base timer:
    after [onBattleStart], [onBattleNextStack] and a returning
    [onBattleLoop] every player has the turn and base timers he had. *)
Theorem battle_handlers_keep_the_turn_timers :
  forall (stack : CStack) (waitTime : Z) (h : Handler) (q : PlayerColor),
    let same h' :=
      turnTimer (at_timer decl h' q) = turnTimer (at_timer decl h q) /\
      baseTimer (at_timer decl h' q) = baseTimer (at_timer decl h q) in
    same (onBattleStart decl gameHandler h) /\
    same (onBattleNextStack decl gameHandler stack h) /\
    (forall h', onBattleLoop decl gameHandler waitTime h = Done h' -> same h').
Proof.
  intros stack waitTime h q. cbv zeta. split; [| split].
  - unfold onBattleStart.
    repeat break_match; try (split; reflexivity).
    cbn [fold_left]. rewrite !at_timer_startBattleTimer.
    repeat break_match; split; reflexivity.
  - unfold onBattleNextStack.
    repeat break_match; try (split; reflexivity);
      unfold sendAndApply; rewrite at_timer_perform;
      (destruct (Nat.eq_dec q (getOwner stack)) as [-> | Hne];
       [ rewrite !at_timer_set_eq, ?at_timer_touch; split; reflexivity
       | rewrite !at_timer_set_neq, ?at_timer_touch by exact Hne; split; reflexivity ]).
  - intros h' Hrun.
    destruct (onBattleLoop_done waitTime h h' Hrun)
      as [-> | (gs & si & battle & stack' & state & _ & _ & _ & _ & _ & Hcases)];
      [split; reflexivity |].
    cbv zeta in Hcases. destruct Hcases as [Hothers Hcases].
    destruct (Nat.eq_dec q (color state)) as [-> | Hne].
    + destruct Hcases as [(_ & Ht & _) | [(_ & _ & Ht & _) | (_ & _ & Ht & _)]];
        rewrite Ht; split; reflexivity.
    + rewrite (Hothers q Hne). split; reflexivity.
Qed.

(** X20. In a battle the creature timer is spent first: a returning
    [onBattleLoop] that forces no action leaves a player's timer as it
    was, or charges the waiting time to a creature timer that still runs,
    or, when the creature timer has run out and battle time is left,
    moves the whole battle timer into the creature timer. *)
Theorem battle_time_is_spent_creature_timer_first :
  forall (waitTime : Z) (h h' : Handler) (q : PlayerColor),
    onBattleLoop decl gameHandler waitTime h = Done h' ->
    (forall c a, ~ In (MakePlayerBattleAction c a)
                      (skipn (length (effects h)) (effects h'))) ->
    let t := at_timer decl h q in
    let t' := at_timer decl h' q in
    t' = t \/
    (creatureTimer t > 0 /\
     t' = with_creatureTimer (creatureTimer t - waitTime) t) \/
    (creatureTimer t <= 0 /\ battleTimer t > 0 /\
     t' = mk_TurnTimerInfo (turnTimer t) (baseTimer t) 0 (battleTimer t)).
Proof.
  intros waitTime h h' q Hrun Hfree. cbv zeta.
  destruct (onBattleLoop_done waitTime h h' Hrun)
    as [-> | (gs & si & battle & stack & state & _ & _ & _ & _ & _ & Hcases)];
    [left; reflexivity |].
  cbv zeta in Hcases. destruct Hcases as [Hothers Hcases].
  destruct Hcases as [(Hc & Ht & _) | [(Hc & Hb & Ht & _) | (_ & _ & _ & He)]].
  - destruct (Nat.eq_dec q (color state)) as [-> | Hne]; [auto |].
    left. exact (Hothers q Hne).
  - destruct (Nat.eq_dec q (color state)) as [-> | Hne]; [auto |].
    left. exact (Hothers q Hne).
  - exfalso. apply (Hfree (color state)
                      (mk_BattleAction DEFEND (unitSide stack) (unitId stack))).
    rewrite He.
    assert (Hskip : forall l l' : list Effect, skipn (length l) (l ++ l') = l').
    { intros l l'. induction l; [reflexivity | exact IHl]. }
    rewrite Hskip. left. reflexivity.
Qed.

(** X21. The handler makes a stack defend only when its player has
    neither creature time nor battle time left; the forced action is a
    [DEFEND]. *)
Theorem defend_is_forced_only_out_of_time :
  forall (waitTime : Z) (h h' : Handler) (c : PlayerColor) (a : BattleAction),
    onBattleLoop decl gameHandler waitTime h = Done h' ->
    ~ In (MakePlayerBattleAction c a) (effects h) ->
    In (MakePlayerBattleAction c a) (effects h') ->
    creatureTimer (at_timer decl h c) <= 0 /\
    battleTimer (at_timer decl h c) <= 0 /\
    actionType a = DEFEND.
Proof.
  intros waitTime h h' c a Hrun Hbefore Hafter.
  destruct (onBattleLoop_done waitTime h h' Hrun)
    as [-> | (gs & si & battle & stack & state & _ & _ & _ & _ & _ & Hcases)];
    [contradiction |].
  cbv zeta in Hcases. destruct Hcases as [Hothers Hcases].
  assert (Hsent : forall ttu, effects h' = effects h ++ [SendAndApply ttu] -> False).
  { intros ttu He. rewrite He in Hafter.
    apply in_app_or in Hafter as [Hin | [Hin | []]]; [contradiction | discriminate]. }
  destruct Hcases as [(_ & _ & [He | [ttu He]])
                     | [(_ & _ & _ & [He | [ttu He]]) | (Hc & Hb & Ht & He)]];
    try (rewrite He in Hafter; contradiction);
    try (exfalso; exact (Hsent ttu He)).
  rewrite He in Hafter.
  apply in_app_or in Hafter as [Hin | [Hin | []]]; [contradiction |].
  injection Hin as <- <-.
  repeat split; auto.
Qed.

End Battle.

Section Separation.

Variable decl : Declarations.
Variable gameHandler : CGameHandler.

(** X22. The handlers of the turn never touch a battle timer or a
    creature timer: after a returning [onPlayerGetTurn] or
    [onPlayerMakingTurn] every player has the battle and creature timers
    he had. *)
Theorem turn_handlers_keep_the_battle_timers :
  forall (fuel : nat) (p q : PlayerColor) (waitTime : Z) (h : Handler),
    (2 <= fuel)%nat ->
    let same h' :=
      battleTimer (at_timer decl h' q) = battleTimer (at_timer decl h q) /\
      creatureTimer (at_timer decl h' q) = creatureTimer (at_timer decl h q) in
    (forall h', onPlayerGetTurn decl gameHandler p h = Done h' -> same h') /\
    (forall h', onPlayerMakingTurn decl gameHandler fuel p waitTime h = Done h' ->
                same h').
Proof.
  intros fuel p q waitTime h Hfuel. cbv zeta. split.
  - intros h' Hrun. unfold onPlayerGetTurn in Hrun.
    repeat match type of Hrun with
           | context [match ?x with _ => _ end] => destruct x eqn:?
           end;
      try discriminate; injection Hrun as <-; try (split; reflexivity).
    unfold sendAndApply. rewrite at_timer_perform.
    destruct (Nat.eq_dec q p) as [-> | Hne].
    + rewrite !at_timer_set_eq. split; reflexivity.
    + rewrite !at_timer_set_neq by exact Hne. split; reflexivity.
  - intros h' Hrun.
    destruct fuel as [|[|fuel]]; [lia | lia |].
    assert (Hcharge : forall state wt g,
               chargeTurnTimer decl state p wt g = Done h' ->
               battleTimer (at_timer decl h' q) = battleTimer (at_timer decl g q) /\
               creatureTimer (at_timer decl h' q) = creatureTimer (at_timer decl g q)).
    { intros state wt g Hdone.
      destruct (chargeTurnTimer_done decl state p wt g h' Hdone) as (Ht & Ho & _).
      cbv zeta in Ht.
      destruct (Nat.eq_dec q p) as [-> | Hne].
      - rewrite Ht. split; reflexivity.
      - unfold at_timer. rewrite (Ho q Hne). split; reflexivity. }
    destruct (onPlayerMakingTurn_cases decl gameHandler fuel p waitTime h)
      as [Hidle | [(gs & si & Hgs & Hsi & Hp & Hthrow)
                  | (gs & si & state & Hgs & Hsi & Hp & Ha)]];
      cbv zeta in *.
    + rewrite Hidle in Hrun. injection Hrun as <-. split; reflexivity.
    + rewrite Hthrow in Hrun. discriminate.
    + rewrite (onPlayerMakingTurn_active decl gameHandler fuel p waitTime h gs si state
                 Hgs Hsi Hp Ha) in Hrun.
      cbv zeta in Hrun.
      destruct (turnTimer (at_timer decl h p) >? 0).
      { destruct (Hcharge _ _ _ Hrun) as [Hb Hc].
        rewrite at_timer_touch in Hb, Hc. auto. }
      destruct (baseTimer (at_timer decl h p) >? 0).
      { destruct (Hcharge _ _ _ Hrun) as [Hb Hc].
        rewrite at_timer_touch, at_timer_rollOver, at_timer_touch in Hb, Hc.
        destruct (Nat.eqb q p) eqn:E;
          [apply Nat.eqb_eq in E; subst q; cbn [battleTimer creatureTimer] in Hb, Hc
          | rewrite ?at_timer_touch in Hb, Hc];
          auto. }
      destruct (negb (topQuery gameHandler (color state)));
        injection Hrun as <-; rewrite ?at_timer_perform, at_timer_touch;
        split; reflexivity.
Qed.

End Separation.

(** Runs on the game of the examples. *)

Lemma recursion_is_bounded_witness :
  onPlayerMakingTurn ex_decl (ex_game None false) 5 1%nat 100
    (ex_handler (mk_TurnTimerInfo 0 60000 0 0))
  = onPlayerMakingTurn ex_decl (ex_game None false) 2 1%nat 100
      (ex_handler (mk_TurnTimerInfo 0 60000 0 0)).
Proof.
  apply (onPlayerMakingTurn_recursion_is_bounded ex_decl (ex_game None false) 5 1%nat 100
           (ex_handler (mk_TurnTimerInfo 0 60000 0 0))).
  lia.
Defined.

Lemma throws_for_unknown_player_witness :
  players (mk_CGameState ex_players None) 7%nat = None /\
  onPlayerMakingTurn ex_decl (ex_game None false) 2 7%nat 100
    (ex_handler (mk_TurnTimerInfo 30000 60000 0 0)) = OutOfRange.
Proof.
  split; [reflexivity |].
  apply (onPlayerMakingTurn_throws_for_unknown_player ex_decl (ex_game None false)
           2 7%nat 100 (ex_handler (mk_TurnTimerInfo 30000 60000 0 0))).
  - lia.
  - eexists. eexists. repeat split; reflexivity.
Defined.

Lemma turn_ends_witness :
  let h := ex_handler (mk_TurnTimerInfo 0 0 0 0) in
  let h' := mk_Handler (timers (touch ex_decl h 1%nat)) [OnPlayerEndsTurn 1%nat] in
  onPlayerMakingTurn ex_decl (ex_game None false) 2 1%nat 100 h = Done h' /\
  turnTimer (at_timer ex_decl h 1%nat) <= 0 /\
  baseTimer (at_timer ex_decl h 1%nat) <= 0.
Proof.
  cbv zeta. split; [reflexivity |].
  destruct (turn_ends_only_out_of_time ex_decl (ex_game None false) 2 1%nat 1%nat 100
              (ex_handler (mk_TurnTimerInfo 0 0 0 0))
              (mk_Handler
                 (timers (touch ex_decl (ex_handler (mk_TurnTimerInfo 0 0 0 0)) 1%nat))
                 [OnPlayerEndsTurn 1%nat])
              ltac:(lia) eq_refl ltac:(cbn; tauto) ltac:(cbn; tauto))
    as (Hturn & Hbase & _).
  split; [exact Hturn | exact Hbase].
Defined.

Lemma turn_timer_is_charged_witness :
  let h := ex_handler (mk_TurnTimerInfo 30000 60000 0 0) in
  exists h',
    onPlayerMakingTurn ex_decl (ex_game None false) 2 1%nat 5000 h = Done h' /\
    at_timer ex_decl h' 1%nat = mk_TurnTimerInfo 25000 60000 0 0 /\
    effects h' =
      [SendAndApply (mk_TurnTimeUpdate 1%nat (mk_TurnTimerInfo 25000 60000 0 0))].
Proof.
  cbv zeta.
  destruct (turn_timer_is_charged ex_decl (ex_game None false) 2 1%nat 5000
              (ex_handler (mk_TurnTimerInfo 30000 60000 0 0))
              (mk_CGameState ex_players None) (mk_StartInfo ex_config)
              (mk_PlayerState 1%nat true INGAME)
              ltac:(lia) eq_refl eq_refl eq_refl eq_refl
              (conj eq_refl eq_refl) eq_refl eq_refl)
    as (h' & Hrun & Ht & _ & He).
  exists h'. split; [exact Hrun |]. split; [exact Ht | exact He].
Defined.

Lemma base_timer_rolls_over_witness :
  let h := ex_handler (mk_TurnTimerInfo (-30) 60000 0 0) in
  exists h',
    onPlayerMakingTurn ex_decl (ex_game None false) 2 1%nat 100 h = Done h' /\
    at_timer ex_decl h' 1%nat = mk_TurnTimerInfo 60000 0 0 0.
Proof.
  cbv zeta.
  destruct (base_timer_rolls_over ex_decl (ex_game None false) 2 1%nat 100
              (ex_handler (mk_TurnTimerInfo (-30) 60000 0 0))
              (mk_CGameState ex_players None) (mk_StartInfo ex_config)
              (mk_PlayerState 1%nat true INGAME)
              ltac:(lia) eq_refl eq_refl eq_refl eq_refl
              (conj eq_refl eq_refl) ltac:(cbn; lia) eq_refl eq_refl)
    as (h' & Hrun & Ht & _).
  exists h'. split; [exact Hrun | exact Ht].
Defined.

Lemma unused_turn_time_witness :
  let h := ex_handler (mk_TurnTimerInfo 4000 60000 0 0) in
  exists h',
    onPlayerGetTurn ex_decl (ex_game None false) 1%nat h = Done h' /\
    at_timer ex_decl h' 1%nat = mk_TurnTimerInfo 30000 64000 0 0.
Proof.
  cbv zeta.
  destruct (unused_turn_time_is_banked ex_decl (ex_game None false) 1%nat
              (ex_handler (mk_TurnTimerInfo 4000 60000 0 0))
              (mk_StartInfo ex_config) eq_refl eq_refl eq_refl)
    as (h' & Hrun & Ht & _).
  exists h'. split; [exact Hrun | exact Ht].
Defined.

Lemma first_turn_witness :
  let h := ex_handler (mk_TurnTimerInfo 1 2 3 4) in
  exists h',
    onPlayerGetTurn ex_decl (ex_game None false) 1%nat
      (onGameplayStart ex_decl (ex_game None false) 1%nat h) = Done h' /\
    at_timer ex_decl h' 1%nat = ex_config.
Proof.
  cbv zeta.
  destruct (first_turn_starts_with_the_configured_timer ex_decl (ex_game None false)
              1%nat (ex_handler (mk_TurnTimerInfo 1 2 3 4))
              (mk_StartInfo ex_config) eq_refl eq_refl eq_refl)
    as (h' & Hrun & Ht & _).
  exists h'. split; [exact Hrun | exact Ht].
Defined.

Lemma battle_start_witness :
  let gh := ex_game (Some (ex_battle None)) false in
  let h := ex_handler (mk_TurnTimerInfo 25000 60000 0 0) in
  let h' := onBattleStart ex_decl gh h in
  at_timer ex_decl h' 1%nat = mk_TurnTimerInfo 25000 60000 20000 10000 /\
  timers h' 255%nat = None /\
  effects h' =
    [SendAndApply (mk_TurnTimeUpdate 1%nat (mk_TurnTimerInfo 25000 60000 20000 10000))].
Proof.
  cbv zeta.
  destruct (battle_start_arms_both_sides ex_decl (ex_game (Some (ex_battle None)) false)
              (ex_handler (mk_TurnTimerInfo 25000 60000 0 0))
              (mk_CGameState ex_players (Some (ex_battle None)))
              (mk_StartInfo ex_config) (ex_battle None)
              eq_refl eq_refl eq_refl eq_refl) as [Ht He].
  split; [exact (Ht 1%nat) |]. split; [reflexivity | exact He].
Defined.

Lemma next_stack_witness :
  let gh := ex_game (Some (ex_battle None)) false in
  let h := ex_handler (mk_TurnTimerInfo 25000 60000 5000 7000) in
  let h' := onBattleNextStack ex_decl gh (mk_CStack 1%nat ATTACKER 3) h in
  at_timer ex_decl h' 1%nat = mk_TurnTimerInfo 25000 60000 7000 10000.
Proof.
  cbv zeta.
  destruct (next_stack_rearms_the_creature_timer ex_decl
              (ex_game (Some (ex_battle None)) false)
              (mk_CStack 1%nat ATTACKER 3)
              (ex_handler (mk_TurnTimerInfo 25000 60000 5000 7000))
              (mk_CGameState ex_players (Some (ex_battle None)))
              (mk_StartInfo ex_config) (ex_battle None)
              eq_refl eq_refl eq_refl eq_refl eq_refl) as (Ht & _).
  exact Ht.
Defined.

Lemma battle_rollover_witness :
  let gh := ex_game (Some (ex_battle (Some (mk_CStack 1%nat ATTACKER 3)))) false in
  let h := ex_handler (mk_TurnTimerInfo 25000 60000 20000 0) in
  exists h',
    onBattleLoop ex_decl gh 100 h = Done h' /\
    at_timer ex_decl h' 1%nat = mk_TurnTimerInfo 25000 60000 0 20000.
Proof.
  cbv zeta. eexists. split; [reflexivity |].
  match goal with
  | |- at_timer _ ?g _ = _ =>
      assert (Hrun :
        onBattleLoop ex_decl
          (ex_game (Some (ex_battle (Some (mk_CStack 1%nat ATTACKER 3)))) false) 100
          (ex_handler (mk_TurnTimerInfo 25000 60000 20000 0)) = Done g)
        by reflexivity
  end.
  destruct (battle_time_is_spent_creature_timer_first ex_decl _ 100 _ _ 1%nat Hrun
              ltac:(intros c a; cbn; intuition discriminate))
    as [H | [[H _] | (_ & _ & H)]].
  - cbv in H. discriminate.
  - cbv in H. discriminate.
  - exact H.
Defined.

Lemma battle_handlers_keep_the_turn_timers_witness :
  let gh := ex_game (Some (ex_battle (Some (mk_CStack 1%nat ATTACKER 3)))) false in
  let h := ex_handler (mk_TurnTimerInfo 25000 60000 20000 4000) in
  exists h',
    onBattleLoop ex_decl gh 1000 h = Done h' /\
    turnTimer (at_timer ex_decl h' 1%nat) = 25000 /\
    baseTimer (at_timer ex_decl h' 1%nat) = 60000.
Proof.
  cbv zeta. eexists. split; [reflexivity |].
  match goal with
  | |- turnTimer (at_timer _ ?g _) = _ /\ _ =>
      assert (Hrun :
        onBattleLoop ex_decl
          (ex_game (Some (ex_battle (Some (mk_CStack 1%nat ATTACKER 3)))) false) 1000
          (ex_handler (mk_TurnTimerInfo 25000 60000 20000 4000)) = Done g)
        by reflexivity
  end.
  destruct (battle_handlers_keep_the_turn_timers ex_decl
              (ex_game (Some (ex_battle (Some (mk_CStack 1%nat ATTACKER 3)))) false)
              (mk_CStack 1%nat ATTACKER 3) 1000
              (ex_handler (mk_TurnTimerInfo 25000 60000 20000 4000)) 1%nat)
    as (_ & _ & Hloop).
  exact (Hloop _ Hrun).
Defined.

Lemma defend_is_forced_witness :
  let gh := ex_game (Some (ex_battle (Some (mk_CStack 1%nat ATTACKER 3)))) false in
  let h := ex_handler (mk_TurnTimerInfo 25000 60000 0 0) in
  let a := mk_BattleAction DEFEND ATTACKER 3 in
  exists h',
    onBattleLoop ex_decl gh 100 h = Done h' /\
    In (MakePlayerBattleAction 1%nat a) (effects h') /\
    creatureTimer (at_timer ex_decl h 1%nat) <= 0 /\
    battleTimer (at_timer ex_decl h 1%nat) <= 0.
Proof.
  cbv zeta. eexists. split; [reflexivity |].
  match goal with
  | |- In _ (effects ?g) /\ _ =>
      assert (Hrun :
        onBattleLoop ex_decl
          (ex_game (Some (ex_battle (Some (mk_CStack 1%nat ATTACKER 3)))) false) 100
          (ex_handler (mk_TurnTimerInfo 25000 60000 0 0)) = Done g)
        by reflexivity;
      assert (Hin : In (MakePlayerBattleAction 1%nat (mk_BattleAction DEFEND ATTACKER 3))
                       (effects g)) by (cbn; tauto)
  end.
  split; [exact Hin |].
  destruct (defend_is_forced_only_out_of_time ex_decl _ 100 _ _ 1%nat
              (mk_BattleAction DEFEND ATTACKER 3) Hrun ltac:(cbn; tauto) Hin)
    as (Hc & Hb & _).
  split; [exact Hc | exact Hb].
Defined.

Lemma turn_handlers_keep_the_battle_timers_witness :
  let h := ex_handler (mk_TurnTimerInfo 4000 60000 777 888) in
  exists h',
    onPlayerGetTurn ex_decl (ex_game None false) 1%nat h = Done h' /\
    battleTimer (at_timer ex_decl h' 1%nat) = 777 /\
    creatureTimer (at_timer ex_decl h' 1%nat) = 888.
Proof.
  cbv zeta. eexists. split; [reflexivity |].
  destruct (turn_handlers_keep_the_battle_timers ex_decl (ex_game None false)
              2 1%nat 1%nat 0 (ex_handler (mk_TurnTimerInfo 4000 60000 777 888))
              ltac:(lia)) as [Hget _].
  exact (Hget _ eq_refl).
Defined.

End TurnTimerFacts.
